(** * Merge coordinator for team worker branches

    A shallow embedding of [src/team/merge-coordinator.ts] and the
    properties of conflict detection ([checkMergeConflicts]), single-branch
    merging ([mergeWorkerBranch]) and the fail-fast batch
    ([mergeAllWorkerBranches]).

    The version-control backend is the child process started by
    [execFileSync]: it is modelled as a transition function on an abstract
    repository state that either returns the captured standard output or
    throws.  Every call made by the coordinator is recorded, in order, so
    that statements about which commands are (not) issued can be made. *)

From Stdlib Require Import List String Ascii NArith Bool Arith Lia.
Import ListNotations.

Set Implicit Arguments.

(** ** JavaScript strings and the string methods used by the coordinator *)

Module JS.

(** A JavaScript string is a sequence of UTF-16 code units. *)
Definition jsstring := list N.

(** Literals of the source, written as Rocq strings. *)
Definition js (s : string) : jsstring :=
  map N_of_ascii (list_ascii_of_string s).

Fixpoint eqb (a b : jsstring) : bool :=
  match a, b with
  | [], [] => true
  | x :: a', y :: b' => N.eqb x y && eqb a' b'
  | _, _ => false
  end.

(** ToBoolean on strings: only the empty string is falsy. *)
Definition truthy (s : jsstring) : bool :=
  match s with
  | [] => false
  | _ :: _ => true
  end.

(** The code units stripped by [String.prototype.trim]: WhiteSpace and
    LineTerminator of ECMAScript. *)
Definition isWhiteSpace (c : N) : bool :=
  (N.eqb c 9 || N.eqb c 10 || N.eqb c 11 || N.eqb c 12 || N.eqb c 13
   || N.eqb c 32 || N.eqb c 160 || N.eqb c 5760
   || (N.leb 8192 c && N.leb c 8202)
   || N.eqb c 8232 || N.eqb c 8233 || N.eqb c 8239 || N.eqb c 8287
   || N.eqb c 12288 || N.eqb c 65279)%N.

Fixpoint trimStart (s : jsstring) : jsstring :=
  match s with
  | [] => []
  | c :: r => if isWhiteSpace c then trimStart r else s
  end.

Definition trimEnd (s : jsstring) : jsstring := rev (trimStart (rev s)).

Definition trim (s : jsstring) : jsstring := trimEnd (trimStart s).

(** [s.split(sep)] for a one-code-unit separator: never the empty array. *)
Fixpoint split (sep : N) (s : jsstring) : list jsstring :=
  match s with
  | [] => [[]]
  | c :: r =>
      if N.eqb c sep then [] :: split sep r
      else match split sep r with
           | seg :: segs => (c :: seg) :: segs
           | [] => [[c]]
           end
  end.

(** [a.pop()]: the last element, [undefined] on the empty array. *)
Fixpoint pop {A : Type} (a : list A) : option A :=
  match a with
  | [] => None
  | [x] => Some x
  | _ :: r => pop r
  end.

(** [v || d] where [v] is a string or [undefined]. *)
Definition or_else (v : option jsstring) (d : jsstring) : jsstring :=
  match v with
  | Some s => if truthy s then s else d
  | None => d
  end.

(** [new Set(a)] and [set.has(x)] on strings (SameValueZero is string
    equality there). *)
Definition StringSet := list jsstring.
Definition Set_of (a : list jsstring) : StringSet := a.
Definition has (s : StringSet) (x : jsstring) : bool := existsb (eqb x) s.

Definition LF : N := 10.
Definition SLASH : N := 47.

End JS.

Import JS.

(** ** Child processes, completions and the effect monad *)

(** One [execFileSync(file, args, { cwd })] invocation. *)
Record Call := mkCall {
  file : jsstring;
  args : list jsstring;
  cwd : jsstring
}.

(** What a thrown value carries is never inspected by the coordinator. *)
Definition exn := string.

Inductive Completion (A : Type) : Type :=
| Normal (a : A)
| Throw (e : exn).

Arguments Normal {A} a.
Arguments Throw {A} e%_string.

Record MergeResult := mkMergeResult {
  workerName : jsstring;
  branch : jsstring;
  success : bool;
  conflicts : list jsstring;
  mergeCommit : option jsstring
}.

(** An entry of the worktree registry. *)
Record Worktree := mkWorktree {
  wt_path : jsstring;
  wt_branch : jsstring;
  wt_workerName : jsstring
}.

Section Coordinator.

(** The repository as the backend sees it, and the backend itself. *)
Variable Repo : Type.
Variable git : Repo -> Call -> Completion jsstring * Repo.

(** Modelled from the spec: [listTeamWorktrees] of [./git-worktree.js],
    the registry that maps a team name and repository root to the ordered
    list of worker worktrees. *)
Variable listTeamWorktrees : jsstring -> jsstring -> list Worktree.

Record World := mkWorld {
  repo : Repo;
  trace : list Call
}.

Definition M (A : Type) : Type := World -> Completion A * World.

Definition ret {A} (a : A) : M A := fun w => (Normal a, w).

Definition bind {A B} (m : M A) (k : A -> M B) : M B :=
  fun w =>
    match m w with
    | (Normal a, w') => k a w'
    | (Throw e, w') => (Throw e, w')
    end.

(** [try { m } catch (e) { h e }]: the effects of [m] up to the throw stay. *)
Definition try_catch {A} (m : M A) (h : exn -> M A) : M A :=
  fun w =>
    match m w with
    | (Normal a, w') => (Normal a, w')
    | (Throw e, w') => h e w'
    end.

Definition execFileSync (f : jsstring) (a : list jsstring) (dir : jsstring)
  : M jsstring :=
  fun w =>
    let c := mkCall f a dir in
    let (r, s) := git (repo w) c in
    (r, mkWorld s (trace w ++ [c])).

Notation "x <- m ;; k" := (bind m (fun x => k))
  (at level 61, m at next level, right associativity).
Notation "m ;;; k" := (bind m (fun _ => k))
  (at level 61, right associativity).

(** ** The coordinator *)

Definition checkMergeConflicts (workerBranch baseBranch repoRoot : jsstring)
  : M (list jsstring) :=
  try_catch
    (out <- execFileSync (js "git")
              [js "merge-base"; baseBranch; workerBranch] repoRoot ;;
     let mergeBase := trim out in
     out <- execFileSync (js "git")
              [js "diff"; js "--name-only"; mergeBase; baseBranch] repoRoot ;;
     let baseDiff := trim out in
     out <- execFileSync (js "git")
              [js "diff"; js "--name-only"; mergeBase; workerBranch] repoRoot ;;
     let workerDiff := trim out in
     if negb (truthy baseDiff) || negb (truthy workerDiff) then ret []
     else
       let baseFiles := Set_of (filter truthy (split LF baseDiff)) in
       let workerFiles := filter truthy (split LF workerDiff) in
       ret (filter (fun f => has baseFiles f) workerFiles))
    (fun _ => ret []).

Definition mergeWorkerBranch (workerBranch baseBranch repoRoot : jsstring)
  : M MergeResult :=
  let workerName := or_else (pop (split SLASH workerBranch)) workerBranch in
  try_catch
    (execFileSync (js "git") [js "checkout"; baseBranch] repoRoot ;;;
     execFileSync (js "git")
       [js "merge"; js "--no-ff"; js "-m";
        js "Merge " ++ workerBranch ++ js " into " ++ baseBranch;
        workerBranch] repoRoot ;;;
     out <- execFileSync (js "git") [js "rev-parse"; js "HEAD"] repoRoot ;;
     let mergeCommit := trim out in
     ret (mkMergeResult workerName workerBranch true [] (Some mergeCommit)))
    (fun _ =>
       try_catch
         (execFileSync (js "git") [js "merge"; js "--abort"] repoRoot ;;;
          ret tt)
         (fun _ => ret tt) ;;;
       conflicts <- checkMergeConflicts workerBranch baseBranch repoRoot ;;
       ret (mkMergeResult workerName workerBranch false conflicts None)).

(** The [for (const wt of worktrees)] loop with its [break]. *)
Fixpoint mergeLoop (base repoRoot : jsstring) (worktrees : list Worktree)
  (results : list MergeResult) : M (list MergeResult) :=
  match worktrees with
  | [] => ret results
  | wt :: rest =>
      result <- mergeWorkerBranch (wt_branch wt) base repoRoot ;;
      let results := results ++ [result] in
      if negb (success result) then ret results
      else mergeLoop base repoRoot rest results
  end.

Definition mergeAllWorkerBranches (teamName repoRoot : jsstring)
  (baseBranch : option jsstring) : M (list MergeResult) :=
  let worktrees := listTeamWorktrees teamName repoRoot in
  if Nat.eqb (List.length worktrees) 0 then ret []
  else
    base <- match baseBranch with
            | Some b =>
                if truthy b then ret b
                else out <- execFileSync (js "git")
                       [js "rev-parse"; js "--abbrev-ref"; js "HEAD"] repoRoot ;;
                     ret (trim out)
            | None =>
                out <- execFileSync (js "git")
                  [js "rev-parse"; js "--abbrev-ref"; js "HEAD"] repoRoot ;;
                ret (trim out)
            end ;;
    mergeLoop base repoRoot worktrees [].

End Coordinator.

Arguments mkWorld {Repo} repo trace.
Arguments repo {Repo} w.
Arguments trace {Repo} w.

(** ** Vocabulary of the properties *)

(** The outcome and the world left by a run. *)
Definition outcome {A W : Type} (p : Completion A * W) : Completion A := fst p.
Definition world_after {A W : Type} (p : Completion A * W) : W := snd p.

(** What the detector reads off the output of a diff (lines 43, 47, 53 and
    54): the non-empty lines of the output, trimmed as a whole first. *)
Definition parsedDiff (out : jsstring) : list jsstring :=
  filter truthy (split LF (trim out)).

(** The paths [git diff --name-only] reports: one on each line of its
    output, as printed. *)
Definition changedFiles (out : jsstring) : list jsstring :=
  filter truthy (split LF out).

(** A code unit that [trim] keeps. *)
Definition printable (out : jsstring) : Prop :=
  exists c, In c out /\ isWhiteSpace c = false.

(** The calls of the coordinator, by what they do to the repository. *)
Definition subcommand (c : Call) : jsstring :=
  match args c with
  | [] => []
  | a :: _ => a
  end.

Definition read_only (c : Call) : bool :=
  JS.eqb (subcommand c) (js "merge-base") || JS.eqb (subcommand c) (js "diff").

Definition mutating (c : Call) : bool :=
  JS.eqb (subcommand c) (js "checkout") || JS.eqb (subcommand c) (js "merge").

Definition mergeBaseCall (baseBranch workerBranch repoRoot : jsstring) : Call :=
  mkCall (js "git") [js "merge-base"; baseBranch; workerBranch] repoRoot.

Definition diffCall (from to repoRoot : jsstring) : Call :=
  mkCall (js "git") [js "diff"; js "--name-only"; from; to] repoRoot.

Definition checkoutCall (baseBranch repoRoot : jsstring) : Call :=
  mkCall (js "git") [js "checkout"; baseBranch] repoRoot.

Definition mergeCall (workerBranch baseBranch repoRoot : jsstring) : Call :=
  mkCall (js "git")
    [js "merge"; js "--no-ff"; js "-m";
     js "Merge " ++ workerBranch ++ js " into " ++ baseBranch;
     workerBranch] repoRoot.

Definition headCommitCall (repoRoot : jsstring) : Call :=
  mkCall (js "git") [js "rev-parse"; js "HEAD"] repoRoot.

Definition abortCall (repoRoot : jsstring) : Call :=
  mkCall (js "git") [js "merge"; js "--abort"] repoRoot.

Definition currentBranchCall (repoRoot : jsstring) : Call :=
  mkCall (js "git") [js "rev-parse"; js "--abbrev-ref"; js "HEAD"] repoRoot.

(** The world once the backend has run one more call, whatever it answered. *)
Definition called {Repo : Type} (git : Repo -> Call -> Completion jsstring * Repo)
  (c : Call) (w : World Repo) : World Repo :=
  mkWorld (snd (git (repo w) c)) (trace w ++ [c]).

(** The last path segment of a branch name, as the specification words it:
    what follows the last separator, the whole name when there is none. *)
Fixpoint lastIndexOf (sep : N) (s : jsstring) : option nat :=
  match s with
  | [] => None
  | c :: r =>
      match lastIndexOf sep r with
      | Some i => Some (S i)
      | None => if N.eqb c sep then Some 0 else None
      end
  end.

Definition lastSegment (s : jsstring) : jsstring :=
  match lastIndexOf SLASH s with
  | Some i => skipn (S i) s
  | None => s
  end.

(** Merging every listed branch in turn, without stopping: the reference
    the fail-fast batch is compared with. *)
Fixpoint mergeEach {Repo : Type} (git : Repo -> Call -> Completion jsstring * Repo)
  (base repoRoot : jsstring) (worktrees : list Worktree)
  : M Repo (list MergeResult) :=
  match worktrees with
  | [] => ret []
  | wt :: rest =>
      bind (mergeWorkerBranch git (wt_branch wt) base repoRoot) (fun r =>
      bind (mergeEach git base repoRoot rest) (fun rs =>
      ret (r :: rs)))
  end.

(** The base branch of a batch is known: it was supplied non-empty, or the
    backend answered the current-branch query, which leaves the world [w1]. *)
Definition baseResolved {Repo : Type}
  (git : Repo -> Call -> Completion jsstring * Repo)
  (repoRoot : jsstring) (baseBranch : option jsstring) (w : World Repo)
  (base : jsstring) (w1 : World Repo) : Prop :=
  (exists b, baseBranch = Some b /\ b <> [] /\ base = b /\ w1 = w)
  \/ ((baseBranch = None \/ baseBranch = Some [])
      /\ exists out,
           fst (git (repo w) (currentBranchCall repoRoot)) = Normal out
           /\ w1 = called git (currentBranchCall repoRoot) w
           /\ base = trim out).

(** The failure report of one merge attempt: from the world [wf] the failing
    step left, the abort is issued next, its own outcome ignored; then the
    detector runs, issuing queries only, and its answer is the conflict
    list of a result with [success = false] and no merge commit. *)
Definition abortedAndDetected {Repo : Type}
  (git : Repo -> Call -> Completion jsstring * Repo)
  (workerBranch baseBranch repoRoot : jsstring) (wf : World Repo)
  (p : Completion MergeResult * World Repo) : Prop :=
  (exists calls,
     trace (world_after p) = trace wf ++ abortCall repoRoot :: calls
     /\ Forall (fun c => read_only c = true) calls)
  /\ exists cs,
       checkMergeConflicts git workerBranch baseBranch repoRoot
         (called git (abortCall repoRoot) wf) = (Normal cs, world_after p)
       /\ exists r, outcome p = Normal r
            /\ branch r = workerBranch
            /\ success r = false
            /\ conflicts r = cs
            /\ mergeCommit r = None.

(** The [catch] block of [mergeWorkerBranch], run from the world [wf] in
    which the [try] block threw. *)
Definition mergeFailure {Repo : Type}
  (git : Repo -> Call -> Completion jsstring * Repo)
  (workerBranch baseBranch repoRoot : jsstring) (wf : World Repo)
  : Completion MergeResult * World Repo :=
  let workerName := or_else (pop (split SLASH workerBranch)) workerBranch in
  let p := checkMergeConflicts git workerBranch baseBranch repoRoot
             (called git (abortCall repoRoot) wf) in
  (match fst p with
   | Normal cs => Normal (mkMergeResult workerName workerBranch false cs None)
   | Throw e => Throw e
   end, snd p).

(** The three queries the conflict detector may issue. *)
Definition detectorCall (workerBranch baseBranch repoRoot : jsstring) (c : Call)
  : Prop :=
  c = mergeBaseCall baseBranch workerBranch repoRoot
  \/ exists mb, c = diffCall mb baseBranch repoRoot
                \/ c = diffCall mb workerBranch repoRoot.

(** One of the detector's queries fails: the merge-base query, or, once it
    answered, the base-side diff, or, once that answered, the worker-side
    diff. *)
Definition detectorQueryFails {Repo : Type}
  (git : Repo -> Call -> Completion jsstring * Repo)
  (workerBranch baseBranch repoRoot : jsstring) (w : World Repo) : Prop :=
  let c1 := mergeBaseCall baseBranch workerBranch repoRoot in
  let w1 := called git c1 w in
  (exists e, fst (git (repo w) c1) = Throw e)
  \/ (exists mb, fst (git (repo w) c1) = Normal mb
      /\ let c2 := diffCall (trim mb) baseBranch repoRoot in
         let w2 := called git c2 w1 in
         (exists e, fst (git (repo w1) c2) = Throw e)
         \/ (exists bd, fst (git (repo w1) c2) = Normal bd
             /\ exists e,
                  fst (git (repo w2) (diffCall (trim mb) workerBranch repoRoot))
                  = Throw e)).

(** Backend contract: a successful [git rev-parse HEAD] prints a commit
    identifier, hence at least one visible character. *)
Definition commitIdContract {Repo : Type}
  (git : Repo -> Call -> Completion jsstring * Repo) (repoRoot : jsstring)
  : Prop :=
  forall s out, fst (git s (headCommitCall repoRoot)) = Normal out -> printable out.

(** Backend contract: [merge-base] and [diff] leave the repository as it is. *)
Definition queriesReadOnly {Repo : Type}
  (git : Repo -> Call -> Completion jsstring * Repo) : Prop :=
  forall s c, read_only c = true -> snd (git s c) = s.

(** A result list that stops at its first failure: successes, then at most
    one failure, which is last. *)
Definition stopsAtFirstFailure (rs : list MergeResult) : Prop :=
  exists oks,
    Forall (fun r => success r = true) oks
    /\ (rs = oks \/ exists r, rs = oks ++ [r] /\ success r = false).

(** ** A backend for examples

    A small repository: the checked-out branch and whether a merge is in
    progress.  Branch [team/w2] touches [README.md], which [main] changed
    too, so merging it conflicts; branch [gone] does not exist. *)

Module FakeGit.

Record Repo := mkRepo {
  head : jsstring;
  merging : bool
}.

Definition lit (s : string) (x : jsstring) : bool := JS.eqb x (js s).

Definition line (s : string) : jsstring := js s ++ [LF].

Definition query (s : Repo) (c : Call) : Completion jsstring :=
  match args c with
  | [a0; a; b] =>
      if lit "merge-base" a0 then
        if lit "gone" a || lit "gone" b then Throw "fatal: not a valid object name"
        else Normal (line "abc123")
      else Throw "usage"
  | [a0; a1; from; to] =>
      if lit "diff" a0 && lit "--name-only" a1 then
        if lit "main" to then Normal (line "README.md")
        else if lit "team/w2" to then Normal (line "README.md" ++ line "src/x.ts")
        else if lit "team/w1" to then Normal (line "a.txt")
        else if lit "team/w3" to then Normal (line "b.txt")
        else Throw "fatal: bad revision"
      else Throw "usage"
  | _ => Throw "usage"
  end.

Definition command (s : Repo) (c : Call) : Completion jsstring * Repo :=
  match args c with
  | [a0; a1] =>
      if lit "checkout" a0 then
        if lit "gone" a1 then (Throw "error: pathspec did not match", s)
        else (Normal [], mkRepo a1 (merging s))
      else if lit "merge" a0 && lit "--abort" a1 then
        if merging s then (Normal [], mkRepo (head s) false)
        else (Throw "fatal: There is no merge to abort", s)
      else if lit "rev-parse" a0 && lit "HEAD" a1 then
        (Normal (line "deadbeef"), s)
      else (Throw "usage", s)
  | [a0; a1; a2] =>
      if lit "rev-parse" a0 && lit "--abbrev-ref" a1 && lit "HEAD" a2 then
        (Normal (head s ++ [LF]), s)
      else (Throw "usage", s)
  | [a0; a1; a2; msg; ref] =>
      if lit "merge" a0 && lit "--no-ff" a1 && lit "-m" a2 then
        if lit "team/w2" ref then
          (Throw "CONFLICT (content): Merge conflict in README.md",
           mkRepo (head s) true)
        else if lit "gone" ref then (Throw "merge: not something we can merge", s)
        else (Normal [], s)
      else (Throw "usage", s)
  | _ => (Throw "usage", s)
  end.

Definition git (s : Repo) (c : Call) : Completion jsstring * Repo :=
  if read_only c then (query s c, s) else command s c.

Definition init : World Repo := mkWorld (mkRepo (js "main") false) [].

Definition wt (name : string) : Worktree :=
  mkWorktree (js "/repo/.omc/worktrees/" ++ js name)
             (js "team/" ++ js name) (js name).

(** One team, [alpha], with three workers; every other team is empty. *)
Definition registry (teamName repoRoot : jsstring) : list Worktree :=
  if lit "alpha" teamName then [wt "w1"; wt "w2"; wt "w3"] else [].

End FakeGit.

(** A backend that plays back a fixed script of answers, one per call. *)
Module Scripted.

Definition Repo := list (Completion jsstring).

Definition git (s : Repo) (c : Call) : Completion jsstring * Repo :=
  match s with
  | [] => (Throw "script exhausted", [])
  | r :: rest => (r, rest)
  end.

Definition start (script : Repo) : World Repo := mkWorld script [].

End Scripted.

(** ** Vocabulary of the call traces *)

(** The calls one merge attempt may issue: the three steps, the abort and
    the detector's queries. *)
Definition attemptCall (workerBranch baseBranch repoRoot : jsstring) (c : Call)
  : Prop :=
  c = checkoutCall baseBranch repoRoot
  \/ c = mergeCall workerBranch baseBranch repoRoot
  \/ c = headCommitCall repoRoot
  \/ c = abortCall repoRoot
  \/ detectorCall workerBranch baseBranch repoRoot c.

(** A call of a merge attempt for one of the listed worktrees. *)
Definition batchCall (worktrees : list Worktree) (base repoRoot : jsstring)
  (c : Call) : Prop :=
  exists wt, In wt worktrees /\ attemptCall (wt_branch wt) base repoRoot c.

(** The command is [git], run in the repository root. *)
Definition gitIn (repoRoot : jsstring) (c : Call) : Prop :=
  file c = js "git" /\ cwd c = repoRoot.

(** The computation only adds calls that satisfy [P] to the trace, whether
    it completes normally or throws. *)
Definition emits {Repo A : Type} (P : Call -> Prop) (m : M Repo A) : Prop :=
  forall w, exists calls,
    trace (snd (m w)) = trace w ++ calls /\ Forall P calls.

(** ** Advisory permissions ([permissions.ts]) *)

Module JSText.

(** [s.startsWith(prefix)]. *)
Fixpoint startsWith (s prefix : jsstring) : bool :=
  match prefix, s with
  | [], _ => true
  | _ :: _, [] => false
  | p :: prefix', c :: s' => N.eqb c p && startsWith s' prefix'
  end.

(** [s.replace(/pat/g, rep)] for a non-empty literal [pat] and a
    replacement without ['$']: matches are taken left to right and do not
    overlap.  [skip] counts the code units of the current match that are
    still to be dropped. *)
Fixpoint replaceAllFrom (pat rep : jsstring) (skip : nat) (s : jsstring)
  : jsstring :=
  match s with
  | [] => []
  | c :: r =>
      match skip with
      | S k => replaceAllFrom pat rep k r
      | O =>
          if startsWith s pat
          then rep ++ replaceAllFrom pat rep (List.length pat - 1) r
          else c :: replaceAllFrom pat rep 0 r
      end
  end.

Definition replaceAll (pat rep s : jsstring) : jsstring :=
  replaceAllFrom pat rep 0 s.

(** [a.join(sep)]. *)
Fixpoint join (sep : jsstring) (a : list jsstring) : jsstring :=
  match a with
  | [] => []
  | [x] => x
  | x :: r => x ++ sep ++ join sep r
  end.

(** [pat] occurs somewhere in [s]. *)
Fixpoint occursIn (pat s : jsstring) : bool :=
  startsWith s pat
  || match s with
     | [] => false
     | _ :: r => occursIn pat r
     end.

End JSText.

Import JSText.

(** Completions without effects, for code that may throw but touches no
    state. *)
Definition andThen {A B : Type} (m : Completion A) (k : A -> Completion B)
  : Completion B :=
  match m with
  | Normal a => k a
  | Throw e => Throw e
  end.

(** A [for (const x of items)] loop whose body may [return]: [Some r] when
    an iteration returned [r], [None] when the loop ran to its end. *)
Fixpoint forOf {A R : Type} (items : list A) (body : A -> Completion (option R))
  : Completion (option R) :=
  match items with
  | [] => Normal None
  | x :: rest =>
      match body x with
      | Throw e => Throw e
      | Normal (Some r) => Normal (Some r)
      | Normal None => forOf rest body
      end
  end.

Module Permissions.

Section Permissions.

(** JavaScript numbers are left abstract: of [maxFileSize] the code only
    asks whether it is positive and below [Infinity], and prints it in
    kilobytes. *)
Variable number : Type.
Variable Infinity : number.
(** [x > 0] *)
Variable positive : number -> bool.
(** [x < Infinity] *)
Variable belowInfinity : number -> bool.
(** The text of [Math.round(x / 1024)] in a template literal. *)
Variable roundedKB : number -> jsstring.

(** [path.resolve(from, to)] and [path.relative(from, to)] of Node. *)
Variable resolve : jsstring -> jsstring -> jsstring.
Variable relative : jsstring -> jsstring -> jsstring.

(** [new RegExp(source).test(s)]: throws on a source that is no regular
    expression. *)
Variable regExpTest : jsstring -> jsstring -> Completion bool.

Record WorkerPermissions := mkWorkerPermissions {
  workerName : jsstring;
  allowedPaths : list jsstring;
  deniedPaths : list jsstring;
  allowedCommands : list jsstring;
  maxFileSize : number
}.

(** The regular expression source [matchGlob] builds from a pattern. *)
Definition globSource (pattern : jsstring) : jsstring :=
  replaceAll (js "?") (js "[^/]")
    (replaceAll (js "___DOUBLESTAR___") (js ".*")
       (replaceAll (js "*") (js "[^/]*")
          (replaceAll (js "**") (js "___DOUBLESTAR___") pattern))).

Definition matchGlob (pattern path : jsstring) : Completion bool :=
  let regexStr := globSource pattern in
  regExpTest (js "^" ++ regexStr ++ js "$") path.

Definition isPathAllowed (permissions : WorkerPermissions)
  (filePath workingDirectory : jsstring) : Completion bool :=
  let absPath := resolve workingDirectory filePath in
  let relPath := relative workingDirectory absPath in
  if startsWith relPath (js "..") then Normal false
  else
    andThen
      (forOf (deniedPaths permissions) (fun pattern =>
         andThen (matchGlob pattern relPath) (fun m =>
         Normal (if m then Some false else None))))
      (fun returned =>
         match returned with
         | Some r => Normal r
         | None =>
             if Nat.eqb (List.length (allowedPaths permissions)) 0
             then Normal true
             else
               andThen
                 (forOf (allowedPaths permissions) (fun pattern =>
                    andThen (matchGlob pattern relPath) (fun m =>
                    Normal (if m then Some true else None))))
                 (fun returned =>
                    match returned with
                    | Some r => Normal r
                    | None => Normal false
                    end)
         end).

Definition isCommandAllowed (permissions : WorkerPermissions)
  (command : jsstring) : bool :=
  if Nat.eqb (List.length (allowedCommands permissions)) 0 then true
  else
    let trimmed := trim command in
    existsb (fun prefix => startsWith trimmed prefix)
      (allowedCommands permissions).

Definition formatPermissionInstructions (permissions : WorkerPermissions)
  : jsstring :=
  let lines := [js "PERMISSION CONSTRAINTS:"] in
  let lines :=
    if Nat.ltb 0 (List.length (allowedPaths permissions))
    then lines ++ [js "- You may ONLY modify files matching: "
                   ++ join (js ", ") (allowedPaths permissions)]
    else lines in
  let lines :=
    if Nat.ltb 0 (List.length (deniedPaths permissions))
    then lines ++ [js "- You must NOT modify files matching: "
                   ++ join (js ", ") (deniedPaths permissions)]
    else lines in
  let lines :=
    if Nat.ltb 0 (List.length (allowedCommands permissions))
    then lines ++ [js "- You may ONLY run commands starting with: "
                   ++ join (js ", ") (allowedCommands permissions)]
    else lines in
  let lines :=
    if positive (maxFileSize permissions)
       && belowInfinity (maxFileSize permissions)
    then lines ++ [js "- Maximum file size: "
                   ++ roundedKB (maxFileSize permissions)
                   ++ js "KB per file"]
    else lines in
  let lines :=
    if Nat.eqb (List.length lines) 1
    then lines ++ [js "- No restrictions (full access within working directory)"]
    else lines in
  join [LF] lines.

Definition getDefaultPermissions (name : jsstring) : WorkerPermissions :=
  mkWorkerPermissions name [] [] [] Infinity.

End Permissions.

End Permissions.

(** ** The audit log ([audit-log.ts]) *)

Module AuditLog.

(** The file-system calls of the module: those of [node:fs] and the three
    helpers of [./fs-utils.js]. *)
Inductive FsCall : Type :=
| ExistsSync (path : jsstring)
| StatSync (path : jsstring)
| ReadFileSync (path encoding : jsstring)
| WriteFileSync (path data : jsstring)
| ChmodSync (path : jsstring) (mode : N)
| RenameSync (oldPath newPath : jsstring)
| ValidateResolvedPath (resolvedPath baseDir : jsstring)
| EnsureDirWithMode (dir : jsstring)
| AppendFileWithMode (path data : jsstring).

(** The optional [filter] argument of [readAuditLog]. *)
Record AuditFilter := mkAuditFilter {
  eventType : option jsstring;
  workerName : option jsstring;
  since : option jsstring
}.

(** [x] is a string or [undefined]; [if (x)] in the source. *)
Definition given (x : option jsstring) : option jsstring :=
  match x with
  | Some s => if truthy s then Some s else None
  | None => None
  end.

(** [a.filter(f)] with a callback that may throw. *)
Fixpoint filterC {A : Type} (f : A -> Completion bool) (a : list A)
  : Completion (list A) :=
  match a with
  | [] => Normal []
  | x :: r =>
      andThen (f x) (fun keep =>
      andThen (filterC f r) (fun r' =>
      Normal (if keep then x :: r' else r')))
  end.

Section AuditLog.

(** The file system, as the calls see it.  The answers are typed by what
    the call returns: [existsSync] a boolean, [statSync(p).size] a number,
    [readFileSync] a string, the other calls nothing. *)
Variable Fs : Type.
Variable number : Type.
Variable fsBool : Fs -> FsCall -> bool * Fs.
Variable fsNumber : Fs -> FsCall -> Completion number * Fs.
Variable fsString : Fs -> FsCall -> Completion jsstring * Fs.
Variable fsVoid : Fs -> FsCall -> Completion unit * Fs.

(** [a <= b] on numbers, and [5 * 1024 * 1024]. *)
Variable numLe : number -> number -> bool.
Variable DEFAULT_MAX_LOG_SIZE : number.

(** [path.join(...segments)] of Node. *)
Variable pathJoin : list jsstring -> jsstring.

(** The values [JSON.parse] returns, the reading of a property of such a
    value (which throws on [null]), and the comparisons of the result with
    a string: [===] converts nothing and always answers; [>=] first
    converts an object operand to a primitive and throws when that fails. *)
Variable Any : Type.
Variable JSON_parse : jsstring -> Completion Any.
Variable getProp : Any -> jsstring -> Completion Any.
Variable strictEq : Any -> jsstring -> bool.
Variable greaterEq : Any -> jsstring -> Completion bool.

(** The events handed to [logAuditEvent]. *)
Variable AuditEvent : Type.
Variable teamName : AuditEvent -> jsstring.
Variable JSON_stringify : AuditEvent -> Completion jsstring.

Record FsWorld := mkFsWorld {
  disk : Fs;
  calls : list FsCall
}.

Definition Eff (A : Type) : Type := FsWorld -> Completion A * FsWorld.

Definition pure {A} (a : A) : Eff A := fun w => (Normal a, w).

Definition seq {A B} (m : Eff A) (k : A -> Eff B) : Eff B :=
  fun w =>
    match m w with
    | (Normal a, w') => k a w'
    | (Throw e, w') => (Throw e, w')
    end.

(** A computation without effects, run inside one with effects. *)
Definition lift {A} (c : Completion A) : Eff A := fun w => (c, w).

Definition existsSync (path : jsstring) : Eff bool :=
  fun w =>
    let (b, s) := fsBool (disk w) (ExistsSync path) in
    (Normal b, mkFsWorld s (calls w ++ [ExistsSync path])).

Definition statSyncSize (path : jsstring) : Eff number :=
  fun w =>
    let (r, s) := fsNumber (disk w) (StatSync path) in
    (r, mkFsWorld s (calls w ++ [StatSync path])).

Definition readFileSync (path encoding : jsstring) : Eff jsstring :=
  fun w =>
    let (r, s) := fsString (disk w) (ReadFileSync path encoding) in
    (r, mkFsWorld s (calls w ++ [ReadFileSync path encoding])).

Definition voidCall (c : FsCall) : Eff unit :=
  fun w =>
    let (r, s) := fsVoid (disk w) c in
    (r, mkFsWorld s (calls w ++ [c])).

Definition writeFileSync (path data : jsstring) : Eff unit :=
  voidCall (WriteFileSync path data).
Definition chmodSync (path : jsstring) (mode : N) : Eff unit :=
  voidCall (ChmodSync path mode).
Definition renameSync (oldPath newPath : jsstring) : Eff unit :=
  voidCall (RenameSync oldPath newPath).
Definition validateResolvedPath (resolvedPath baseDir : jsstring) : Eff unit :=
  voidCall (ValidateResolvedPath resolvedPath baseDir).
Definition ensureDirWithMode (dir : jsstring) : Eff unit :=
  voidCall (EnsureDirWithMode dir).
Definition appendFileWithMode (path data : jsstring) : Eff unit :=
  voidCall (AppendFileWithMode path data).

(** The world once the file system has answered one more call. *)
Definition afterBool (c : FsCall) (w : FsWorld) : FsWorld :=
  mkFsWorld (snd (fsBool (disk w) c)) (calls w ++ [c]).
Definition afterNumber (c : FsCall) (w : FsWorld) : FsWorld :=
  mkFsWorld (snd (fsNumber (disk w) c)) (calls w ++ [c]).
Definition afterString (c : FsCall) (w : FsWorld) : FsWorld :=
  mkFsWorld (snd (fsString (disk w) c)) (calls w ++ [c]).
Definition afterVoid (c : FsCall) (w : FsWorld) : FsWorld :=
  mkFsWorld (snd (fsVoid (disk w) c)) (calls w ++ [c]).

(** The events of the lines that parse, in the order of the lines. *)
Definition parsed (lines : list jsstring) : list Any :=
  flat_map (fun line => match JSON_parse line with
                        | Normal v => [v]
                        | Throw _ => []
                        end) lines.

(** One criterion of a filter on one event: the property is read and
    compared; an absent or empty criterion holds of every event. *)
Definition criterion (wanted : option jsstring) (property : jsstring)
  (compare : Any -> jsstring -> Completion bool) (e : Any) : bool :=
  match given wanted with
  | None => true
  | Some s =>
      match andThen (getProp e property) (fun v => compare v s) with
      | Normal b => b
      | Throw _ => false
      end
  end.

Definition matches (filter : AuditFilter) (e : Any) : bool :=
  criterion (eventType filter) (js "eventType")
    (fun v s => Normal (strictEq v s)) e
  && criterion (workerName filter) (js "workerName")
       (fun v s => Normal (strictEq v s)) e
  && criterion (since filter) (js "timestamp") greaterEq e.

Definition getLogPath (workingDirectory team : jsstring) : jsstring :=
  pathJoin [workingDirectory; js ".omc"; js "logs";
            js "team-bridge-" ++ team ++ js ".jsonl"].

Definition logAuditEvent (workingDirectory : jsstring) (event : AuditEvent)
  : Eff unit :=
  let logPath := getLogPath workingDirectory (teamName event) in
  let dir := pathJoin [workingDirectory; js ".omc"; js "logs"] in
  seq (validateResolvedPath logPath workingDirectory) (fun _ =>
  seq (ensureDirWithMode dir) (fun _ =>
  seq (lift (JSON_stringify event)) (fun text =>
  let line := text ++ [LF] in
  appendFileWithMode logPath line))).

Definition readAuditLog (workingDirectory team : jsstring)
  (filter : option AuditFilter) : Eff (list Any) :=
  let logPath := getLogPath workingDirectory team in
  seq (existsSync logPath) (fun found =>
  if negb found then pure []
  else
    seq (readFileSync logPath (js "utf-8")) (fun content =>
    let lines := List.filter (fun l => truthy (trim l)) (split LF content) in
    let events :=
      fold_left (fun events line =>
                   match JSON_parse line with
                   | Normal v => events ++ [v]
                   | Throw _ => events
                   end) lines [] in
    match filter with
    | None => pure events
    | Some filter =>
        seq (match given (eventType filter) with
             | Some wanted =>
                 lift (filterC (fun e =>
                         andThen (getProp e (js "eventType")) (fun v =>
                         Normal (strictEq v wanted))) events)
             | None => pure events
             end) (fun events =>
        seq (match given (workerName filter) with
             | Some wanted =>
                 lift (filterC (fun e =>
                         andThen (getProp e (js "workerName")) (fun v =>
                         Normal (strictEq v wanted))) events)
             | None => pure events
             end) (fun events =>
        seq (match given (since filter) with
             | Some since =>
                 lift (filterC (fun e =>
                         andThen (getProp e (js "timestamp")) (fun v =>
                         greaterEq v since)) events)
             | None => pure events
             end) (fun events =>
        pure events)))
    end)).

Definition rotateAuditLog (workingDirectory team : jsstring)
  (maxSizeBytes : option number) : Eff unit :=
  let maxSizeBytes := match maxSizeBytes with
                      | Some m => m
                      | None => DEFAULT_MAX_LOG_SIZE
                      end in
  let logPath := getLogPath workingDirectory team in
  seq (existsSync logPath) (fun found =>
  if negb found then pure tt
  else
    seq (statSyncSize logPath) (fun size =>
    if numLe size maxSizeBytes then pure tt
    else
      seq (readFileSync logPath (js "utf-8")) (fun content =>
      let lines := List.filter (fun l => truthy (trim l)) (split LF content) in
      let keepFrom := Nat.div (List.length lines) 2 in
      let rotated := join [LF] (skipn keepFrom lines) ++ [LF] in
      let tmpPath := logPath ++ js ".tmp" in
      seq (writeFileSync tmpPath rotated) (fun _ =>
      seq (chmodSync tmpPath 384) (fun _ =>
      renameSync tmpPath logPath))))).

End AuditLog.

(** The entries of a log: its lines that are not blank. *)
Definition entries (content : jsstring) : list jsstring :=
  List.filter (fun l => truthy (trim l)) (split LF content).

(** What a rotation keeps of a log, and what it writes. *)
Definition kept (content : jsstring) : list jsstring :=
  skipn (Nat.div (List.length (entries content)) 2) (entries content).

Definition rotated (content : jsstring) : jsstring :=
  join [LF] (kept content) ++ [LF].

End AuditLog.

(** ** Stand-ins for the examples of the permissions and of the audit log *)

(** The registry of [FakeGit] under other paths and worker names. *)
Definition renamedRegistry (teamName repoRoot : jsstring) : list Worktree :=
  map (fun wt => mkWorktree (js "/elsewhere") (wt_branch wt) (js "someone"))
    (FakeGit.registry teamName repoRoot).

Module FakePermissions.

(** Sizes in bytes, [None] for [Infinity]. *)
Definition number := option N.
Definition Infinity : number := None.
Definition positive (x : number) : bool :=
  match x with
  | Some n => N.ltb 0 n
  | None => true
  end.
Definition belowInfinity (x : number) : bool :=
  match x with
  | Some _ => true
  | None => false
  end.
Definition roundedKB (x : number) : jsstring := js "1".

(** Paths below the working directory are relative to it, any other path
    is reached through its parent. *)
Definition resolve (from to : jsstring) : jsstring :=
  if startsWith to (js "/") then to else from ++ js "/" ++ to.
Definition relative (from to : jsstring) : jsstring :=
  if startsWith to (from ++ js "/")
  then skipn (List.length from + 1) to
  else js "../" ++ to.

(** An engine that knows anchored literal text only, and rejects a
    bracket left open. *)
Definition regExpTest (source s : jsstring) : Completion bool :=
  if occursIn (js "[") source && negb (occursIn (js "]") source)
  then Throw "SyntaxError: Invalid regular expression"
  else Normal (JS.eqb source (js "^" ++ s ++ js "$")).

Definition scoped : Permissions.WorkerPermissions number :=
  Permissions.mkWorkerPermissions (js "w1")
    [js "src/app.ts"; js "README.md"] [js "secrets.env"; js "README.md"]
    [js "npm test"; js "tsc"] (Some 1024%N).

End FakePermissions.

Module FakeFs.

(** A disk that holds the log and the temporary file beside it. *)
Record Fs := mkFs {
  logFile : option jsstring;
  tmpFile : option jsstring
}.

Definition number := N.
Definition numLe : number -> number -> bool := N.leb.
Definition DEFAULT_MAX_LOG_SIZE : number := 5242880%N.
Definition pathJoin (segments : list jsstring) : jsstring := join (js "/") segments.

Definition fsBool (s : Fs) (c : AuditLog.FsCall) : bool * Fs :=
  (match logFile s with
   | Some _ => true
   | None => false
   end, s).

Definition fsNumber (s : Fs) (c : AuditLog.FsCall) : Completion number * Fs :=
  (match logFile s with
   | Some text => Normal (N.of_nat (List.length text))
   | None => Throw "ENOENT"
   end, s).

Definition fsString (s : Fs) (c : AuditLog.FsCall) : Completion jsstring * Fs :=
  (match logFile s with
   | Some text => Normal text
   | None => Throw "ENOENT"
   end, s).

Definition fsVoid (s : Fs) (c : AuditLog.FsCall) : Completion unit * Fs :=
  match c with
  | AuditLog.WriteFileSync _ data => (Normal tt, mkFs (logFile s) (Some data))
  | AuditLog.RenameSync _ _ =>
      match tmpFile s with
      | Some data => (Normal tt, mkFs (Some data) None)
      | None => (Throw "ENOENT", s)
      end
  | AuditLog.ValidateResolvedPath path base =>
      if startsWith path base && negb (occursIn (js "..") path)
      then (Normal tt, s)
      else (Throw "Path traversal detected", s)
  | AuditLog.AppendFileWithMode _ data =>
      (Normal tt,
       mkFs (Some (match logFile s with
                   | Some text => text ++ data
                   | None => data
                   end)) (tmpFile s))
  | _ => (Normal tt, s)
  end.

(** Events are kept as their text; a line parses when it is an object or
    [null], and only [null] has no readable property. *)
Definition Any := jsstring.
Definition JSON_parse (line : jsstring) : Completion Any :=
  if startsWith line (js "{") || JS.eqb line (js "null") then Normal line
  else Throw "SyntaxError: Unexpected token".
Definition getProp (e : Any) (property : jsstring) : Completion Any :=
  if JS.eqb e (js "null") then Throw "TypeError: Cannot read properties of null"
  else Normal e.
Definition strictEq (v : Any) (s : jsstring) : bool := occursIn s v.
Definition greaterEq (v : Any) (s : jsstring) : Completion bool := Normal true.

(** An event to log: its team and its serialised text. *)
Definition AuditEvent : Type := jsstring * jsstring.
Definition teamName (e : AuditEvent) : jsstring := fst e.
Definition JSON_stringify (e : AuditEvent) : Completion jsstring := Normal (snd e).

Definition line (s : string) : jsstring := js s ++ [LF].

(** Three entries, a blank line and a line that is no JSON. *)
Definition sample : jsstring :=
  line "{a:task_claimed}" ++ line "  " ++ line "oops"
  ++ line "{b:task_started}" ++ line "{c:task_completed}".

Definition withLog (text : jsstring) : AuditLog.FsWorld Fs :=
  AuditLog.mkFsWorld (mkFs (Some text) None) [].

Definition noLog : AuditLog.FsWorld Fs :=
  AuditLog.mkFsWorld (mkFs None None) [].

(** A filter on the event type, with an empty worker name. *)
Definition startedOnly : AuditLog.AuditFilter :=
  AuditLog.mkAuditFilter (Some (js "task_started")) (Some []) None.

End FakeFs.

(** The repository root of the examples. *)
Definition repoRoot0 : jsstring := js "/repo".

(** The script: checkout and merge succeed, [rev-parse HEAD] fails, the
    abort fails too, and the detector's merge-base query fails. *)
Definition headQueryFails : Scripted.Repo :=
  [Normal []; Normal []; Throw "fatal: bad object HEAD";
   Throw "fatal: There is no merge to abort"; Throw "fatal: no merge base"].

(** ** Facts about the string methods *)

Lemma eqb_refl (a : jsstring) : JS.eqb a a = true.
Proof.
  induction a as [|x a IH]; simpl; [reflexivity|].
  now rewrite N.eqb_refl, IH.
Qed.

Lemma eqb_eq (a b : jsstring) : JS.eqb a b = true <-> a = b.
Proof.
  split; [|intros ->; apply eqb_refl].
  revert b; induction a as [|x a IH]; intros [|y b]; simpl; try easy.
  intros H. apply andb_true_iff in H as [Hx Hr].
  apply N.eqb_eq in Hx. apply IH in Hr. now subst.
Qed.

Lemma has_In (s : StringSet) (x : jsstring) : has s x = true <-> In x s.
Proof.
  unfold has. rewrite existsb_exists. split.
  - intros [y [Hy E]]. apply eqb_eq in E. now subst.
  - intros H. exists x. split; [assumption | apply eqb_refl].
Qed.

Lemma truthy_false (s : jsstring) : truthy s = false <-> s = [].
Proof. destruct s; simpl; split; intros; congruence. Qed.

Lemma printable_cons_ws (c : N) (s : jsstring) :
  isWhiteSpace c = true -> printable (c :: s) -> printable s.
Proof.
  intros Hc [d [[->|Hd] Hw]]; [congruence|].
  exists d; auto.
Qed.

Lemma trimStart_printable (s : jsstring) : printable s -> printable (trimStart s).
Proof.
  induction s as [|c s IH]; simpl; intros H; [assumption|].
  destruct (isWhiteSpace c) eqn:E; [|assumption].
  apply IH. eapply printable_cons_ws; eassumption.
Qed.

Lemma rev_printable (s : jsstring) : printable s -> printable (rev s).
Proof. intros [c [Hc Hw]]. exists c. split; [now apply in_rev in Hc | assumption]. Qed.

Lemma trim_printable (s : jsstring) : printable s -> printable (trim s).
Proof.
  intros H. unfold trim, trimEnd.
  now apply rev_printable, trimStart_printable, rev_printable, trimStart_printable.
Qed.

(** [trim] never empties an output that holds a visible character. *)
Lemma trim_nonempty (s : jsstring) : printable s -> trim s <> [].
Proof.
  intros H E. apply trim_printable in H. rewrite E in H.
  destruct H as [c [[] _]].
Qed.

Lemma split_nonempty (sep : N) (s : jsstring) : split sep s <> [].
Proof.
  induction s as [|c s IH]; simpl; [discriminate|].
  destruct (N.eqb c sep); [discriminate|].
  destruct (split sep s); [contradiction | discriminate].
Qed.

Lemma pop_cons {A : Type} (x : A) (l : list A) : l <> [] -> pop (x :: l) = pop l.
Proof. destruct l; [contradiction | reflexivity]. Qed.

Lemma split_single (sep : N) (s : jsstring) :
  lastIndexOf sep s = None -> split sep s = [s].
Proof.
  induction s as [|c s IH]; simpl; [reflexivity|].
  destruct (lastIndexOf sep s); [discriminate|].
  destruct (N.eqb c sep); [discriminate|].
  intros _. now rewrite IH.
Qed.

Lemma split_several (sep : N) (s : jsstring) (i : nat) :
  lastIndexOf sep s = Some i -> exists seg x segs, split sep s = seg :: x :: segs.
Proof.
  revert i; induction s as [|c s IH]; simpl; intros i; [discriminate|].
  destruct (lastIndexOf sep s) as [j|] eqn:E.
  - intros _. destruct (IH j eq_refl) as (seg & x & segs & ->).
    destruct (N.eqb c sep); eauto.
  - destruct (N.eqb c sep); [|discriminate].
    intros _. rewrite (split_single _ _ E). eauto.
Qed.

(** [split('/').pop()] is the text after the last separator. *)
Lemma pop_split (s : jsstring) : pop (split SLASH s) = Some (lastSegment s).
Proof.
  unfold lastSegment.
  induction s as [|c s IH]; [reflexivity|].
  simpl lastIndexOf. simpl split.
  destruct (lastIndexOf SLASH s) as [j|] eqn:E.
  - destruct (split_several _ _ E) as (seg & x & segs & Es).
    rewrite Es in *.
    change (skipn (S (S j)) (c :: s)) with (skipn (S j) s).
    rewrite <- IH. destruct (N.eqb c SLASH); reflexivity.
  - rewrite (split_single _ _ E) in *.
    destruct (N.eqb c SLASH); reflexivity.
Qed.

Lemma parsedDiff_blank (out : jsstring) : trim out = [] -> parsedDiff out = [].
Proof. unfold parsedDiff. now intros ->. Qed.

(** ** The coordinator, step by step *)

Section Properties.

Variable Repo : Type.
Variable git : Repo -> Call -> Completion jsstring * Repo.

Implicit Types (w : World Repo) (c : Call).

Lemma execFileSync_run f a dir w :
  execFileSync git f a dir w
  = (fst (git (repo w) (mkCall f a dir)), called git (mkCall f a dir) w).
Proof.
  unfold execFileSync, called. destruct (git (repo w) (mkCall f a dir)); reflexivity.
Qed.

Lemma called_trace c w : trace (called git c w) = trace w ++ [c].
Proof. reflexivity. Qed.

(** The detector, unfolded into the backend answers it branches on. *)
Lemma checkMergeConflicts_run workerBranch baseBranch repoRoot w :
  checkMergeConflicts git workerBranch baseBranch repoRoot w =
  let c1 := mergeBaseCall baseBranch workerBranch repoRoot in
  let w1 := called git c1 w in
  match fst (git (repo w) c1) with
  | Throw _ => (Normal [], w1)
  | Normal mb =>
      let c2 := diffCall (trim mb) baseBranch repoRoot in
      let w2 := called git c2 w1 in
      match fst (git (repo w1) c2) with
      | Throw _ => (Normal [], w2)
      | Normal bd =>
          let c3 := diffCall (trim mb) workerBranch repoRoot in
          let w3 := called git c3 w2 in
          match fst (git (repo w2) c3) with
          | Throw _ => (Normal [], w3)
          | Normal wd =>
              (Normal
                 (if negb (truthy (trim bd)) || negb (truthy (trim wd)) then []
                  else filter (fun f => has (parsedDiff bd) f) (parsedDiff wd)),
               w3)
          end
      end
  end.
Proof.
  unfold checkMergeConflicts, try_catch, bind.
  rewrite execFileSync_run. fold (mergeBaseCall baseBranch workerBranch repoRoot).
  cbv zeta.
  destruct (fst (git (repo w) _)) as [mb|e]; [|reflexivity].
  rewrite execFileSync_run. fold (diffCall (trim mb) baseBranch repoRoot).
  destruct (fst (git (repo (called git _ w)) _)) as [bd|e]; [|reflexivity].
  rewrite execFileSync_run. fold (diffCall (trim mb) workerBranch repoRoot).
  destruct (fst (git (repo (called git _ (called git _ w))) _)) as [wd|e];
    [|reflexivity].
  unfold parsedDiff, Set_of, ret.
  destruct (negb (truthy (trim bd)) || negb (truthy (trim wd))); reflexivity.
Qed.

Lemma checkMergeConflicts_total workerBranch baseBranch repoRoot w :
  exists cs,
    fst (checkMergeConflicts git workerBranch baseBranch repoRoot w) = Normal cs.
Proof.
  rewrite checkMergeConflicts_run. cbv zeta.
  repeat match goal with
         | |- context [match ?x with Normal _ => _ | Throw _ => _ end] =>
             destruct x
         end; simpl; eauto.
Qed.

Lemma checkMergeConflicts_trace workerBranch baseBranch repoRoot w :
  exists calls,
    trace (snd (checkMergeConflicts git workerBranch baseBranch repoRoot w))
    = trace w ++ calls
    /\ Forall (detectorCall workerBranch baseBranch repoRoot) calls.
Proof.
  rewrite checkMergeConflicts_run. cbv zeta.
  assert (D1 : detectorCall workerBranch baseBranch repoRoot
                 (mergeBaseCall baseBranch workerBranch repoRoot))
    by (left; reflexivity).
  assert (D2 : forall mb, detectorCall workerBranch baseBranch repoRoot
                 (diffCall mb baseBranch repoRoot))
    by (intros mb; right; exists mb; left; reflexivity).
  assert (D3 : forall mb, detectorCall workerBranch baseBranch repoRoot
                 (diffCall mb workerBranch repoRoot))
    by (intros mb; right; exists mb; right; reflexivity).
  destruct (fst (git (repo w) _)) as [mb|e]; simpl.
  2:{ eexists; split; [reflexivity | auto]. }
  destruct (fst (git _ (diffCall (trim mb) baseBranch repoRoot))) as [bd|e]; simpl.
  2:{ rewrite <- app_assoc. eexists; split; [reflexivity | simpl; auto]. }
  destruct (fst (git _ (diffCall (trim mb) workerBranch repoRoot))) as [wd|e]; simpl;
    rewrite <- !app_assoc; eexists; (split; [reflexivity | simpl; auto]).
Qed.

Lemma detectorCall_read_only workerBranch baseBranch repoRoot c :
  detectorCall workerBranch baseBranch repoRoot c ->
  read_only c = true /\ mutating c = false.
Proof.
  intros [->|[mb [->| ->]]]; split; reflexivity.
Qed.

(** One merge attempt, unfolded into the backend answers it branches on. *)
Lemma mergeWorkerBranch_run workerBranch baseBranch repoRoot w :
  mergeWorkerBranch git workerBranch baseBranch repoRoot w =
  let c1 := checkoutCall baseBranch repoRoot in
  let w1 := called git c1 w in
  let c2 := mergeCall workerBranch baseBranch repoRoot in
  let w2 := called git c2 w1 in
  let c3 := headCommitCall repoRoot in
  let w3 := called git c3 w2 in
  match fst (git (repo w) c1) with
  | Throw _ => mergeFailure git workerBranch baseBranch repoRoot w1
  | Normal _ =>
      match fst (git (repo w1) c2) with
      | Throw _ => mergeFailure git workerBranch baseBranch repoRoot w2
      | Normal _ =>
          match fst (git (repo w2) c3) with
          | Throw _ => mergeFailure git workerBranch baseBranch repoRoot w3
          | Normal out =>
              (Normal (mkMergeResult
                         (or_else (pop (split SLASH workerBranch)) workerBranch)
                         workerBranch true [] (Some (trim out))), w3)
          end
      end
  end.
Proof.
  assert (F : forall wf,
    bind (try_catch
            (bind (execFileSync git (js "git") [js "merge"; js "--abort"] repoRoot)
                  (fun _ => ret tt))
            (fun _ => ret tt))
         (fun _ =>
            bind (checkMergeConflicts git workerBranch baseBranch repoRoot)
              (fun conflicts =>
                 ret (mkMergeResult
                        (or_else (pop (split SLASH workerBranch)) workerBranch)
                        workerBranch false conflicts None))) wf
    = mergeFailure git workerBranch baseBranch repoRoot wf).
  { intros wf. unfold mergeFailure, bind at 1, try_catch, bind at 1.
    rewrite execFileSync_run. fold (abortCall repoRoot).
    unfold bind.
    destruct (fst (git (repo wf) (abortCall repoRoot))) as [o|e]; simpl;
      destruct (checkMergeConflicts git workerBranch baseBranch repoRoot
                  (called git (abortCall repoRoot) wf)) as [[cs|e'] w']; reflexivity. }
  unfold mergeWorkerBranch. cbv zeta.
  unfold try_catch at 1.
  unfold bind at 1. rewrite execFileSync_run. fold (checkoutCall baseBranch repoRoot).
  destruct (fst (git (repo w) (checkoutCall baseBranch repoRoot))) as [o1|e1];
    [|apply F].
  unfold bind at 1. rewrite execFileSync_run.
  fold (mergeCall workerBranch baseBranch repoRoot).
  destruct (fst (git (repo (called git _ w))
                   (mergeCall workerBranch baseBranch repoRoot))) as [o2|e2];
    [|apply F].
  unfold bind at 1. rewrite execFileSync_run. fold (headCommitCall repoRoot).
  destruct (fst (git (repo (called git _ (called git _ w)))
                   (headCommitCall repoRoot))) as [o3|e3];
    [reflexivity | apply F].
Qed.

Lemma mergeFailure_trace workerBranch baseBranch repoRoot wf :
  exists calls,
    trace (snd (mergeFailure git workerBranch baseBranch repoRoot wf))
    = trace wf ++ abortCall repoRoot :: calls
    /\ Forall (fun c => read_only c = true) calls.
Proof.
  unfold mergeFailure. cbv zeta. simpl snd.
  destruct (checkMergeConflicts_trace workerBranch baseBranch repoRoot
              (called git (abortCall repoRoot) wf)) as (calls & Ht & Hc).
  exists calls. rewrite Ht, called_trace, <- app_assoc. split; [reflexivity|].
  eapply Forall_impl; [|exact Hc].
  intros c Hd. now apply detectorCall_read_only in Hd.
Qed.

Lemma mergeFailure_reports workerBranch baseBranch repoRoot wf :
  abortedAndDetected git workerBranch baseBranch repoRoot wf
    (mergeFailure git workerBranch baseBranch repoRoot wf).
Proof.
  split; [apply mergeFailure_trace|].
  unfold mergeFailure, outcome, world_after. cbv zeta.
  destruct (checkMergeConflicts_total workerBranch baseBranch repoRoot
              (called git (abortCall repoRoot) wf)) as [cs Hcs].
  destruct (checkMergeConflicts git workerBranch baseBranch repoRoot
              (called git (abortCall repoRoot) wf)) as [o w'].
  simpl in *. subst o. exists cs. split; [reflexivity|].
  eexists. split; [reflexivity|]. simpl. auto.
Qed.

Lemma mergeFailure_fails workerBranch baseBranch repoRoot wf :
  exists r,
    fst (mergeFailure git workerBranch baseBranch repoRoot wf) = Normal r
    /\ success r = false /\ mergeCommit r = None.
Proof.
  destruct (mergeFailure_reports workerBranch baseBranch repoRoot wf)
    as (_ & cs & _ & r & Hr & _ & Hs & _ & Hm).
  exists r. auto.
Qed.

Lemma mergeWorkerBranch_total workerBranch baseBranch repoRoot w :
  exists r,
    fst (mergeWorkerBranch git workerBranch baseBranch repoRoot w) = Normal r.
Proof.
  rewrite mergeWorkerBranch_run. cbv zeta.
  repeat match goal with
         | |- context [match ?x with Normal _ => _ | Throw _ => _ end] =>
             destruct x
         | |- exists r, fst (mergeFailure _ _ _ _ ?wf) = _ =>
             destruct (mergeFailure_fails workerBranch baseBranch repoRoot wf)
               as (r & Hr & _); exists r; exact Hr
         end.
  simpl. eauto.
Qed.

(** The loop returns what merging a prefix of the registry, branch after
    branch, returns, and leaves the world that those merges leave. *)
Lemma mergeLoop_prefix base repoRoot worktrees :
  forall acc w,
  exists rs w',
    mergeLoop git base repoRoot worktrees acc w = (Normal (acc ++ rs), w')
    /\ mergeEach git base repoRoot (firstn (List.length rs) worktrees) w
       = (Normal rs, w')
    /\ List.length rs <= List.length worktrees
    /\ stopsAtFirstFailure rs
    /\ ((forall r, In r rs -> success r = true) ->
        List.length rs = List.length worktrees).
Proof.
  induction worktrees as [|wt rest IH]; intros acc w.
  - exists [], w. simpl. unfold ret. rewrite app_nil_r.
    repeat split; auto.
    exists []. split; [constructor | now left].
  - simpl mergeLoop. unfold bind at 1.
    destruct (mergeWorkerBranch_total (wt_branch wt) base repoRoot w) as [r Hr].
    destruct (mergeWorkerBranch git (wt_branch wt) base repoRoot w) as [o w1] eqn:E.
    simpl in Hr. subst o. cbv beta zeta.
    destruct (success r) eqn:Hs.
    + destruct (IH (acc ++ [r]) w1) as (rs & w' & Hl & He & Hlen & Hstop & Hall).
      exists (r :: rs), w'. cbn [negb].
      rewrite Hl, <- app_assoc. simpl.
      split; [reflexivity|]. split.
      { unfold bind at 1. rewrite E. unfold bind. rewrite He. reflexivity. }
      split; [lia|]. split.
      { destruct Hstop as (oks & Hoks & Hshape). exists (r :: oks). split.
        - constructor; assumption.
        - destruct Hshape as [->|(r' & -> & Hr')]; [now left|].
          right. exists r'. split; [reflexivity | assumption]. }
      intros Hok. f_equal. apply Hall. intros r' Hin. apply Hok. now right.
    + exists [r], w1. cbn [negb]. simpl.
      split; [reflexivity|]. split.
      { unfold bind at 1. rewrite E. reflexivity. }
      split; [lia|]. split.
      { exists []. split; [constructor|]. right. exists r. split; [reflexivity | assumption]. }
      intros Hok. specialize (Hok r (or_introl eq_refl)). congruence.
Qed.

Lemma filter_has_nil (l : list jsstring) : filter (fun f => has [] f) l = [].
Proof. induction l; simpl; auto. Qed.

Lemma filter_has_disjoint (s : StringSet) (l : list jsstring) :
  (forall f, In f l -> ~ In f s) -> filter (fun f => has s f) l = [].
Proof.
  induction l as [|x l IH]; intros H; simpl; [reflexivity|].
  destruct (has s x) eqn:E.
  - apply has_In in E. exfalso. apply (H x); [now left | assumption].
  - apply IH. intros f Hf. apply H. now right.
Qed.

(** ** Conflict detection *)

(** When the merge-base query and the two diff queries answer, the detector
    returns the worker-side list it parsed, filtered to the elements of the
    base-side list it parsed, in the worker-side order. *)
Lemma checkMergeConflicts_parsed_intersection
  workerBranch baseBranch repoRoot w mb bd wd :
  let c1 := mergeBaseCall baseBranch workerBranch repoRoot in
  let w1 := called git c1 w in
  let c2 := diffCall (trim mb) baseBranch repoRoot in
  let w2 := called git c2 w1 in
  let c3 := diffCall (trim mb) workerBranch repoRoot in
  fst (git (repo w) c1) = Normal mb ->
  fst (git (repo w1) c2) = Normal bd ->
  fst (git (repo w2) c3) = Normal wd ->
  let baseChanged := parsedDiff bd in
  let workerChanged := parsedDiff wd in
  let found :=
    outcome (checkMergeConflicts git workerBranch baseBranch repoRoot w) in
  found = Normal (filter (fun f => has baseChanged f) workerChanged)
  /\ (forall f, In f (filter (fun f => has baseChanged f) workerChanged)
                <-> In f workerChanged /\ In f baseChanged)
  /\ ((forall f, In f workerChanged -> ~ In f baseChanged) -> found = Normal [])
  /\ (baseChanged = [] \/ workerChanged = [] -> found = Normal []).
Proof.
  intros c1 w1 c2 w2 c3 H1 H2 H3 baseChanged workerChanged found.
  assert (Hfound :
    found = Normal (filter (fun f => has baseChanged f) workerChanged)).
  { unfold found, outcome. rewrite checkMergeConflicts_run. cbv zeta.
    fold c1 w1. rewrite H1. fold c2 w2. rewrite H2. fold c3. rewrite H3.
    simpl fst. f_equal. fold baseChanged workerChanged.
    destruct (truthy (trim bd)) eqn:Eb; simpl.
    - destruct (truthy (trim wd)) eqn:Ew; simpl; [reflexivity|].
      apply truthy_false in Ew. unfold workerChanged.
      now rewrite (parsedDiff_blank _ Ew).
    - apply truthy_false in Eb. unfold baseChanged.
      rewrite (parsedDiff_blank _ Eb). now rewrite filter_has_nil. }
  split; [exact Hfound|]. split.
  { intros f. rewrite filter_In, has_In. tauto. }
  rewrite Hfound. split.
  - intros Hdis. now rewrite filter_has_disjoint.
  - intros [-> | ->]; [now rewrite filter_has_nil | reflexivity].
Qed.

(** C5.  When one of the detector's backend queries fails,
    [checkMergeConflicts] completes normally with the empty list: the
    error is not propagated. *)
Theorem checkMergeConflicts_query_failure workerBranch baseBranch repoRoot w :
  detectorQueryFails git workerBranch baseBranch repoRoot w ->
  outcome (checkMergeConflicts git workerBranch baseBranch repoRoot w) = Normal [].
Proof.
  unfold detectorQueryFails, outcome. cbv zeta.
  rewrite checkMergeConflicts_run. cbv zeta.
  intros [[e He] | (mb & Hmb & [[e He] | (bd & Hbd & e & He)])].
  - now rewrite He.
  - now rewrite Hmb, He.
  - now rewrite Hmb, Hbd, He.
Qed.

(** C6.  Whatever the backend answers, the calls [checkMergeConflicts]
    adds to the trace are merge-base and diff queries only, none of them a
    checkout, a merge or a merge-abort; as these queries leave the
    repository as it is, so does the detector. *)
Theorem checkMergeConflicts_read_only workerBranch baseBranch repoRoot w :
  let w' := world_after
              (checkMergeConflicts git workerBranch baseBranch repoRoot w) in
  (exists calls,
     trace w' = trace w ++ calls
     /\ Forall (detectorCall workerBranch baseBranch repoRoot) calls
     /\ Forall (fun c => read_only c = true /\ mutating c = false) calls)
  /\ (queriesReadOnly git -> repo w' = repo w).
Proof.
  intros w'. split.
  - destruct (checkMergeConflicts_trace workerBranch baseBranch repoRoot w)
      as (calls & Ht & Hc).
    exists calls. repeat split; [exact Ht | exact Hc |].
    eapply Forall_impl; [|exact Hc].
    intros c. apply detectorCall_read_only.
  - intros Hro. unfold w', world_after.
    rewrite checkMergeConflicts_run. cbv zeta.
    assert (Hcalled : forall c v, read_only c = true ->
                                  repo (called git c v) = repo v).
    { intros c v Hc. unfold called. simpl. now apply Hro. }
    repeat match goal with
           | |- context [match ?x with Normal _ => _ | Throw _ => _ end] =>
               destruct x
           end; simpl snd; repeat (rewrite Hcalled; [|reflexivity]); reflexivity.
Qed.

(** ** One merge attempt *)

Lemma mergeFailure_names workerBranch baseBranch repoRoot wf :
  exists r,
    fst (mergeFailure git workerBranch baseBranch repoRoot wf) = Normal r
    /\ workerName r = or_else (pop (split SLASH workerBranch)) workerBranch.
Proof.
  unfold mergeFailure. cbv zeta.
  destruct (checkMergeConflicts_total workerBranch baseBranch repoRoot
              (called git (abortCall repoRoot) wf)) as [cs Hcs].
  rewrite Hcs. simpl. eauto.
Qed.

(** C3.  The result of [mergeWorkerBranch] has, when [success] is true, a
    present [mergeCommit] and no conflicts, the commit being non-empty as
    the backend's [rev-parse HEAD] prints a commit identifier; when
    [success] is false it has no [mergeCommit]. *)
Theorem mergeWorkerBranch_result_invariant workerBranch baseBranch repoRoot w :
  exists r,
    outcome (mergeWorkerBranch git workerBranch baseBranch repoRoot w) = Normal r
    /\ (success r = true ->
        exists commit,
          mergeCommit r = Some commit
          /\ conflicts r = []
          /\ (commitIdContract git repoRoot -> commit <> []))
    /\ (success r = false -> mergeCommit r = None).
Proof.
  unfold outcome.
  rewrite mergeWorkerBranch_run. cbv zeta.
  assert (F : forall wf, exists r,
             fst (mergeFailure git workerBranch baseBranch repoRoot wf) = Normal r
             /\ (success r = true ->
                 exists commit,
                   mergeCommit r = Some commit
                   /\ conflicts r = []
                   /\ (commitIdContract git repoRoot -> commit <> []))
             /\ (success r = false -> mergeCommit r = None)).
  { intros wf.
    destruct (mergeFailure_fails workerBranch baseBranch repoRoot wf)
      as (r & Hr & Hs & Hm).
    exists r. split; [exact Hr|]. split; [congruence | auto]. }
  destruct (fst (git (repo w) _)); [|apply F].
  destruct (fst (git _ (mergeCall workerBranch baseBranch repoRoot))); [|apply F].
  destruct (fst (git _ (headCommitCall repoRoot))) as [out|e] eqn:E; [|apply F].
  eexists. split; [reflexivity|]. simpl. split; [|discriminate].
  intros _. exists (trim out). repeat split.
  intros Hcontract. apply trim_nonempty. eapply Hcontract. exact E.
Qed.

(** C4.  [mergeWorkerBranch] always completes normally.  When the checkout
    fails, or the checkout succeeds and the merge fails, the next backend
    call is the merge-abort, whose own outcome is ignored; the conflict
    detector then runs and its answer is the [conflicts] of the returned
    result, which has [success = false] and no [mergeCommit]. *)
Theorem mergeWorkerBranch_failure_cleanup workerBranch baseBranch repoRoot w :
  let c1 := checkoutCall baseBranch repoRoot in
  let w1 := called git c1 w in
  let c2 := mergeCall workerBranch baseBranch repoRoot in
  let w2 := called git c2 w1 in
  let run := mergeWorkerBranch git workerBranch baseBranch repoRoot w in
  (exists r, outcome run = Normal r)
  /\ (forall e, fst (git (repo w) c1) = Throw e ->
        abortedAndDetected git workerBranch baseBranch repoRoot w1 run)
  /\ (forall o e, fst (git (repo w) c1) = Normal o ->
        fst (git (repo w1) c2) = Throw e ->
        abortedAndDetected git workerBranch baseBranch repoRoot w2 run).
Proof.
  intros c1 w1 c2 w2 run. split; [apply mergeWorkerBranch_total|].
  unfold run. rewrite mergeWorkerBranch_run. cbv zeta. fold c1 w1 c2 w2.
  split.
  - intros e ->. apply mergeFailure_reports.
  - intros o e -> ->. apply mergeFailure_reports.
Qed.

(** C9.  A result with [success = true] is returned only when the checkout,
    the merge and the [rev-parse HEAD] query all succeed; when the first two
    succeed and the query fails, the same abort-and-detect failure path is
    taken, from the world the failed query left. *)
Theorem mergeWorkerBranch_success_needs_all_steps
  workerBranch baseBranch repoRoot w :
  let c1 := checkoutCall baseBranch repoRoot in
  let w1 := called git c1 w in
  let c2 := mergeCall workerBranch baseBranch repoRoot in
  let w2 := called git c2 w1 in
  let c3 := headCommitCall repoRoot in
  let w3 := called git c3 w2 in
  let run := mergeWorkerBranch git workerBranch baseBranch repoRoot w in
  (forall r, outcome run = Normal r -> success r = true ->
     exists o1 o2 o3,
       fst (git (repo w) c1) = Normal o1
       /\ fst (git (repo w1) c2) = Normal o2
       /\ fst (git (repo w2) c3) = Normal o3
       /\ mergeCommit r = Some (trim o3))
  /\ (forall o1 o2 e,
        fst (git (repo w) c1) = Normal o1 ->
        fst (git (repo w1) c2) = Normal o2 ->
        fst (git (repo w2) c3) = Throw e ->
        abortedAndDetected git workerBranch baseBranch repoRoot w3 run).
Proof.
  intros c1 w1 c2 w2 c3 w3 run.
  unfold run, outcome. rewrite mergeWorkerBranch_run. cbv zeta.
  fold c1 w1 c2 w2 c3 w3.
  assert (F : forall wf r,
             fst (mergeFailure git workerBranch baseBranch repoRoot wf) = Normal r ->
             success r = true -> False).
  { intros wf r Hr Hs.
    destruct (mergeFailure_fails workerBranch baseBranch repoRoot wf)
      as (r' & Hr' & Hs' & _).
    congruence. }
  split.
  - intros r Hr Hs.
    destruct (fst (git (repo w) c1)) as [o1|e1]; [|exfalso; eapply F; eassumption].
    destruct (fst (git (repo w1) c2)) as [o2|e2]; [|exfalso; eapply F; eassumption].
    destruct (fst (git (repo w2) c3)) as [o3|e3]; [|exfalso; eapply F; eassumption].
    exists o1, o2, o3. simpl in Hr. injection Hr as <-. auto.
  - intros o1 o2 e -> -> ->. apply mergeFailure_reports.
Qed.

(** C8 (amended).  The [workerName] of the result of [mergeWorkerBranch] is
    the text after the last ['/'] of the branch name when that text is not
    empty, and the whole branch name otherwise; a name without ['/'] is
    therefore used whole. *)
Theorem mergeWorkerBranch_workerName workerBranch baseBranch repoRoot w :
  exists r,
    outcome (mergeWorkerBranch git workerBranch baseBranch repoRoot w) = Normal r
    /\ workerName r = (if truthy (lastSegment workerBranch)
                       then lastSegment workerBranch else workerBranch)
    /\ (lastIndexOf SLASH workerBranch = None -> workerName r = workerBranch).
Proof.
  assert (N : or_else (pop (split SLASH workerBranch)) workerBranch
              = if truthy (lastSegment workerBranch)
                then lastSegment workerBranch else workerBranch).
  { now rewrite pop_split. }
  assert (R : exists r,
             fst (mergeWorkerBranch git workerBranch baseBranch repoRoot w) = Normal r
             /\ workerName r = or_else (pop (split SLASH workerBranch)) workerBranch).
  { rewrite mergeWorkerBranch_run. cbv zeta.
    destruct (fst (git (repo w) _)); [|apply mergeFailure_names].
    destruct (fst (git _ (mergeCall workerBranch baseBranch repoRoot)));
      [|apply mergeFailure_names].
    destruct (fst (git _ (headCommitCall repoRoot))); [|apply mergeFailure_names].
    eexists. split; reflexivity. }
  destruct R as (r & Hr & Hn). exists r. split; [exact Hr|].
  rewrite Hn, N. split; [reflexivity|].
  intros Hnone. unfold lastSegment. rewrite Hnone.
  destruct (truthy workerBranch); reflexivity.
Qed.

End Properties.

(** ** The batch *)

Section BatchProperties.

Variable Repo : Type.
Variable git : Repo -> Call -> Completion jsstring * Repo.
Variable listTeamWorktrees : jsstring -> jsstring -> list Worktree.

Implicit Types (w : World Repo).

Lemma mergeAllWorkerBranches_run teamName repoRoot baseBranch w base w1 :
  listTeamWorktrees teamName repoRoot <> [] ->
  baseResolved git repoRoot baseBranch w base w1 ->
  mergeAllWorkerBranches git listTeamWorktrees teamName repoRoot baseBranch w
  = mergeLoop git base repoRoot (listTeamWorktrees teamName repoRoot) [] w1.
Proof.
  intros Hne Hbase. unfold mergeAllWorkerBranches. cbv zeta.
  destruct (listTeamWorktrees teamName repoRoot) as [|wt rest]; [contradiction|].
  cbn [Nat.eqb List.length].
  destruct Hbase as [(b & -> & Hb & -> & ->) | (Habsent & out & Hout & -> & ->)].
  - destruct b; [contradiction | reflexivity].
  - assert (Q : bind (bind (execFileSync git (js "git")
                              [js "rev-parse"; js "--abbrev-ref"; js "HEAD"]
                              repoRoot) (fun o => ret (trim o)))
                     (fun b => mergeLoop git b repoRoot (wt :: rest) []) w
                = mergeLoop git (trim out) repoRoot (wt :: rest) []
                    (called git (currentBranchCall repoRoot) w)).
    { unfold bind at 1. unfold bind at 1. rewrite execFileSync_run.
      fold (currentBranchCall repoRoot). rewrite Hout. reflexivity. }
    destruct Habsent as [-> | ->]; exact Q.
Qed.

(** C2 (amended).  With an empty registry the batch returns the empty list.
    With a non-empty one and a base branch that is supplied non-empty or
    that the backend's current-branch query answers,
    [mergeAllWorkerBranches] returns the results of merging the first [k]
    listed branches, in registry order, and leaves the world those [k]
    merges leave: no later branch is attempted.  Every result but the last
    is a success, a failed result is last, [k] is at most the registry
    length and equals it when every merge succeeds. *)
Theorem mergeAllWorkerBranches_fail_fast teamName repoRoot baseBranch w :
  let worktrees := listTeamWorktrees teamName repoRoot in
  let run := mergeAllWorkerBranches git listTeamWorktrees
               teamName repoRoot baseBranch w in
  (worktrees = [] -> run = (Normal [], w))
  /\ (worktrees <> [] ->
      forall base w1,
        baseResolved git repoRoot baseBranch w base w1 ->
        exists rs w',
          run = (Normal rs, w')
          /\ mergeEach git base repoRoot (firstn (List.length rs) worktrees) w1
             = (Normal rs, w')
          /\ List.length rs <= List.length worktrees
          /\ stopsAtFirstFailure rs
          /\ ((forall r, In r rs -> success r = true) ->
              List.length rs = List.length worktrees)).
Proof.
  intros worktrees run. split.
  - intros Hnil. unfold run, mergeAllWorkerBranches. cbv zeta.
    fold worktrees. now rewrite Hnil.
  - intros Hne base w1 Hbase.
    unfold run. rewrite (mergeAllWorkerBranches_run Hne Hbase).
    fold worktrees.
    destruct (mergeLoop_prefix git base repoRoot worktrees [] w1)
      as (rs & w' & Hl & He & Hlen & Hstop & Hall).
    exists rs, w'. simpl in Hl. auto.
Qed.

(** C7.  With an empty registry listing, [mergeAllWorkerBranches] returns
    the empty list and the world it was started in: the trace is unchanged,
    so neither the current-branch query nor any merge was issued. *)
Theorem mergeAllWorkerBranches_empty_registry teamName repoRoot baseBranch w :
  listTeamWorktrees teamName repoRoot = [] ->
  mergeAllWorkerBranches git listTeamWorktrees teamName repoRoot baseBranch w
  = (Normal [], w).
Proof.
  intros Hnil. unfold mergeAllWorkerBranches. cbv zeta. now rewrite Hnil.
Qed.

(** C10.  A [baseBranch] supplied as the empty string behaves as an absent
    one; with a non-empty registry the first backend call is then the
    current-branch query, whose trimmed answer is the base of every merge
    and whose failure is the failure of the batch. *)
Theorem mergeAllWorkerBranches_empty_base teamName repoRoot w :
  let worktrees := listTeamWorktrees teamName repoRoot in
  let run := mergeAllWorkerBranches git listTeamWorktrees
               teamName repoRoot (Some []) w in
  let c := currentBranchCall repoRoot in
  run = mergeAllWorkerBranches git listTeamWorktrees teamName repoRoot None w
  /\ (worktrees <> [] ->
      match fst (git (repo w) c) with
      | Normal out =>
          run = mergeLoop git (trim out) repoRoot worktrees [] (called git c w)
      | Throw e => run = (Throw e, called git c w)
      end).
Proof.
  intros worktrees run c. split; [reflexivity|].
  intros Hne.
  assert (Q : run = match fst (git (repo w) c) with
                    | Normal out =>
                        mergeLoop git (trim out) repoRoot worktrees []
                          (called git c w)
                    | Throw e => (Throw e, called git c w)
                    end).
  { unfold run, mergeAllWorkerBranches. cbv zeta. fold worktrees.
    destruct worktrees as [|wt rest]; [contradiction|].
    cbn [Nat.eqb List.length truthy].
    unfold bind at 1. unfold bind at 1. rewrite execFileSync_run.
    unfold c, currentBranchCall.
    destruct (fst (git (repo w) _)); reflexivity. }
  destruct (fst (git (repo w) c)); exact Q.
Qed.

End BatchProperties.

(** ** The properties on the example backends *)

Lemma FakeGit_queriesReadOnly : queriesReadOnly FakeGit.git.
Proof. intros s c H. unfold FakeGit.git. now rewrite H. Qed.

Lemma FakeGit_commitIdContract : commitIdContract FakeGit.git repoRoot0.
Proof.
  intros s out H. vm_compute in H. injection H as <-.
  exists 100%N. split; [vm_compute; auto | reflexivity].
Qed.

(** The example of the specification: base changed [README.md], worker
    changed [README.md] and [src/x.ts]. *)
Example checkMergeConflicts_parsed_intersection_readme :
  outcome (checkMergeConflicts FakeGit.git (js "team/w2") (js "main") repoRoot0
             FakeGit.init)
  = Normal [js "README.md"].
Proof.
  exact (proj1 (@checkMergeConflicts_parsed_intersection _ FakeGit.git
                  (js "team/w2") (js "main") repoRoot0 FakeGit.init
                  (FakeGit.line "abc123") (FakeGit.line "README.md")
                  (FakeGit.line "README.md" ++ FakeGit.line "src/x.ts")
                  eq_refl eq_refl eq_refl)).
Defined.

(** C1.  The detector misses a conflict on a path that begins with a
    space.  The base side changed the file [ x.txt], the worker side the
    files [ a.txt] and [ x.txt]: the changed-file lists share [ x.txt], yet
    [checkMergeConflicts] returns the empty list, because each output is
    trimmed as a whole and the base-side list becomes [x.txt]. *)
Theorem checkMergeConflicts_misses_padded_path :
  let baseOut := js " x.txt" ++ [LF] in
  let workerOut := js " a.txt" ++ [LF] ++ js " x.txt" ++ [LF] in
  let answers := [Normal (js "abc123" ++ [LF]); Normal baseOut; Normal workerOut] in
  let baseChanged := changedFiles baseOut in
  let workerChanged := changedFiles workerOut in
  baseChanged = [js " x.txt"]
  /\ workerChanged = [js " a.txt"; js " x.txt"]
  /\ filter (fun f => has baseChanged f) workerChanged = [js " x.txt"]
  /\ parsedDiff baseOut = [js "x.txt"]
  /\ parsedDiff workerOut = [js "a.txt"; js " x.txt"]
  /\ checkMergeConflicts Scripted.git (js "team/w1") (js "main") repoRoot0
       (Scripted.start answers)
     = (Normal [],
        mkWorld []
          [mergeBaseCall (js "main") (js "team/w1") repoRoot0;
           diffCall (js "abc123") (js "main") repoRoot0;
           diffCall (js "abc123") (js "team/w1") repoRoot0]).
Proof. vm_compute. repeat split. Qed.

(** The same trimming reports a path only one side changed: the base side
    changed [a.txt], the worker side [ a.txt], and the detector returns
    [a.txt]. *)
Example checkMergeConflicts_reports_unshared_path :
  let baseOut := js "a.txt" ++ [LF] in
  let workerOut := js " a.txt" ++ [LF] in
  let answers := [Normal (js "abc123" ++ [LF]); Normal baseOut; Normal workerOut] in
  filter (fun f => has (changedFiles baseOut) f) (changedFiles workerOut) = []
  /\ outcome (checkMergeConflicts Scripted.git (js "team/w1") (js "main") repoRoot0
                (Scripted.start answers))
     = Normal [js "a.txt"].
Proof. vm_compute. split; reflexivity. Qed.

Lemma checkMergeConflicts_query_failure_witness :
  detectorQueryFails FakeGit.git (js "gone") (js "main") repoRoot0 FakeGit.init
  /\ outcome (checkMergeConflicts FakeGit.git (js "gone") (js "main") repoRoot0
                FakeGit.init) = Normal [].
Proof.
  assert (H : detectorQueryFails FakeGit.git (js "gone") (js "main") repoRoot0
                FakeGit.init).
  { left. eexists. vm_compute. reflexivity. }
  split; [exact H|].
  exact (@checkMergeConflicts_query_failure _ FakeGit.git
           (js "gone") (js "main") repoRoot0 FakeGit.init H).
Defined.

Lemma checkMergeConflicts_read_only_witness :
  queriesReadOnly FakeGit.git
  /\ repo (world_after (checkMergeConflicts FakeGit.git (js "team/w2") (js "main")
                          repoRoot0 FakeGit.init))
     = repo FakeGit.init.
Proof.
  split; [exact FakeGit_queriesReadOnly|].
  exact (proj2 (@checkMergeConflicts_read_only _ FakeGit.git
                  (js "team/w2") (js "main") repoRoot0 FakeGit.init)
               FakeGit_queriesReadOnly).
Defined.

Lemma mergeWorkerBranch_result_invariant_witness :
  commitIdContract FakeGit.git repoRoot0
  /\ exists r,
       outcome (mergeWorkerBranch FakeGit.git (js "team/w1") (js "main") repoRoot0
                  FakeGit.init) = Normal r
       /\ success r = true
       /\ exists commit, mergeCommit r = Some commit /\ commit <> [].
Proof.
  split; [exact FakeGit_commitIdContract|].
  destruct (@mergeWorkerBranch_result_invariant _ FakeGit.git
              (js "team/w1") (js "main") repoRoot0 FakeGit.init)
    as (r & Hr & Hok & _).
  exists r. split; [exact Hr|].
  assert (Hs : success r = true).
  { vm_compute in Hr. injection Hr as <-. reflexivity. }
  split; [exact Hs|].
  destruct (Hok Hs) as (commit & Hc & _ & Hne).
  exists commit. split; [exact Hc | exact (Hne FakeGit_commitIdContract)].
Defined.

(** A conflicting merge ([team/w2]) and a checkout of a missing base. *)
Lemma mergeWorkerBranch_failure_cleanup_witness :
  abortedAndDetected FakeGit.git (js "team/w2") (js "main") repoRoot0
    (called FakeGit.git (mergeCall (js "team/w2") (js "main") repoRoot0)
       (called FakeGit.git (checkoutCall (js "main") repoRoot0) FakeGit.init))
    (mergeWorkerBranch FakeGit.git (js "team/w2") (js "main") repoRoot0
       FakeGit.init)
  /\ abortedAndDetected FakeGit.git (js "team/w1") (js "gone") repoRoot0
       (called FakeGit.git (checkoutCall (js "gone") repoRoot0) FakeGit.init)
       (mergeWorkerBranch FakeGit.git (js "team/w1") (js "gone") repoRoot0
          FakeGit.init).
Proof.
  split.
  - exact (proj2 (proj2 (@mergeWorkerBranch_failure_cleanup _ FakeGit.git
                           (js "team/w2") (js "main") repoRoot0 FakeGit.init))
             [] _ eq_refl eq_refl).
  - exact (proj1 (proj2 (@mergeWorkerBranch_failure_cleanup _ FakeGit.git
                           (js "team/w1") (js "gone") repoRoot0 FakeGit.init))
             _ eq_refl).
Defined.

Lemma mergeWorkerBranch_success_needs_all_steps_witness :
  (exists o1 o2 o3,
     fst (FakeGit.git (repo FakeGit.init) (checkoutCall (js "main") repoRoot0))
     = Normal o1
     /\ fst (FakeGit.git
               (repo (called FakeGit.git (checkoutCall (js "main") repoRoot0)
                        FakeGit.init))
               (mergeCall (js "team/w1") (js "main") repoRoot0)) = Normal o2
     /\ o3 = FakeGit.line "deadbeef")
  /\ abortedAndDetected Scripted.git (js "team/w1") (js "main") repoRoot0
       (called Scripted.git (headCommitCall repoRoot0)
          (called Scripted.git (mergeCall (js "team/w1") (js "main") repoRoot0)
             (called Scripted.git (checkoutCall (js "main") repoRoot0)
                (Scripted.start headQueryFails))))
       (mergeWorkerBranch Scripted.git (js "team/w1") (js "main") repoRoot0
          (Scripted.start headQueryFails)).
Proof.
  split.
  - destruct (proj1 (@mergeWorkerBranch_success_needs_all_steps _ FakeGit.git
                       (js "team/w1") (js "main") repoRoot0 FakeGit.init)
                _ eq_refl eq_refl) as (o1 & o2 & o3 & H1 & H2 & H3 & _).
    exists o1, o2, o3. split; [exact H1|]. split; [exact H2|].
    vm_compute in H3. injection H3 as <-. reflexivity.
  - exact (proj2 (@mergeWorkerBranch_success_needs_all_steps _ Scripted.git
                    (js "team/w1") (js "main") repoRoot0
                    (Scripted.start headQueryFails))
             [] [] _ eq_refl eq_refl eq_refl).
Defined.

Lemma mergeWorkerBranch_workerName_witness :
  lastIndexOf SLASH (js "main") = None
  /\ exists r,
       outcome (mergeWorkerBranch FakeGit.git (js "main") (js "main") repoRoot0
                  FakeGit.init) = Normal r
       /\ workerName r = js "main".
Proof.
  split; [reflexivity|].
  destruct (@mergeWorkerBranch_workerName _ FakeGit.git
              (js "main") (js "main") repoRoot0 FakeGit.init)
    as (r & Hr & _ & Hwhole).
  exists r. split; [exact Hr | exact (Hwhole eq_refl)].
Defined.

(** C8, as stated, fails on a branch name that ends with the separator:
    nothing follows the last ['/'] of [team/], yet the worker is named
    [team/]. *)
Lemma workerName_trailing_separator :
  exists r,
    outcome (mergeWorkerBranch FakeGit.git (js "team/") (js "main") repoRoot0
               FakeGit.init) = Normal r
    /\ lastSegment (js "team/") = []
    /\ workerName r = js "team/"
    /\ workerName r <> lastSegment (js "team/").
Proof.
  eexists. split; [vm_compute; reflexivity|].
  split; [reflexivity|]. split; [reflexivity|]. discriminate.
Qed.

Lemma mergeAllWorkerBranches_fail_fast_witness :
  FakeGit.registry (js "alpha") repoRoot0 <> []
  /\ baseResolved FakeGit.git repoRoot0 None FakeGit.init (js "main")
       (called FakeGit.git (currentBranchCall repoRoot0) FakeGit.init)
  /\ exists rs w',
       mergeAllWorkerBranches FakeGit.git FakeGit.registry (js "alpha") repoRoot0
         None FakeGit.init = (Normal rs, w')
       /\ mergeEach FakeGit.git (js "main") repoRoot0
            (firstn (List.length rs) (FakeGit.registry (js "alpha") repoRoot0))
            (called FakeGit.git (currentBranchCall repoRoot0) FakeGit.init)
          = (Normal rs, w')
       /\ stopsAtFirstFailure rs.
Proof.
  assert (Hne : FakeGit.registry (js "alpha") repoRoot0 <> []) by discriminate.
  assert (Hbase : baseResolved FakeGit.git repoRoot0 None FakeGit.init (js "main")
                    (called FakeGit.git (currentBranchCall repoRoot0) FakeGit.init)).
  { right. split; [now left|].
    exists (js "main" ++ [LF]). repeat split. }
  split; [exact Hne|]. split; [exact Hbase|].
  destruct (proj2 (@mergeAllWorkerBranches_fail_fast _ FakeGit.git FakeGit.registry
                     (js "alpha") repoRoot0 None FakeGit.init) Hne _ _ Hbase)
    as (rs & w' & Hrun & Heach & _ & Hstop & _).
  exists rs, w'. auto.
Defined.

(** C2, as stated, fails when no base branch is supplied and the backend
    cannot name the current branch: the error of the query leaves the
    batch, which returns nothing. *)
Lemma batch_base_query_throws :
  List.length (FakeGit.registry (js "alpha") repoRoot0) = 3
  /\ outcome (mergeAllWorkerBranches Scripted.git FakeGit.registry (js "alpha")
                repoRoot0 None
                (Scripted.start [Throw "fatal: not a git repository"]))
     = Throw "fatal: not a git repository"
  /\ ~ exists rs,
         outcome (mergeAllWorkerBranches Scripted.git FakeGit.registry
                    (js "alpha") repoRoot0 None
                    (Scripted.start [Throw "fatal: not a git repository"]))
         = Normal rs.
Proof.
  split; [reflexivity|]. split; [reflexivity|].
  intros [rs H]. discriminate H.
Qed.

(** The batch of the specification: [w1] merges, [w2] conflicts, [w3] would
    merge.  Two results come back and no call names [team/w3]. *)
Example mergeAllWorkerBranches_w1_w2_w3 :
  let run := mergeAllWorkerBranches FakeGit.git FakeGit.registry (js "alpha")
               repoRoot0 None FakeGit.init in
  map (fun r => (branch r, success r)) (match outcome run with
                                        | Normal rs => rs
                                        | Throw _ => []
                                        end)
  = [(js "team/w1", true); (js "team/w2", false)]
  /\ forallb (fun c => negb (existsb (JS.eqb (js "team/w3")) (args c)))
       (trace (world_after run)) = true
  /\ outcome (mergeWorkerBranch FakeGit.git (js "team/w3") (js "main") repoRoot0
                (world_after run))
     = Normal (mkMergeResult (js "w3") (js "team/w3") true []
                 (Some (js "deadbeef"))).
Proof. vm_compute. auto. Qed.

Lemma mergeAllWorkerBranches_empty_registry_witness :
  FakeGit.registry (js "beta") repoRoot0 = []
  /\ mergeAllWorkerBranches FakeGit.git FakeGit.registry (js "beta") repoRoot0
       None FakeGit.init = (Normal [], FakeGit.init).
Proof.
  split; [reflexivity|].
  exact (@mergeAllWorkerBranches_empty_registry _ FakeGit.git FakeGit.registry
           (js "beta") repoRoot0 None FakeGit.init eq_refl).
Defined.

Lemma mergeAllWorkerBranches_empty_base_witness :
  FakeGit.registry (js "alpha") repoRoot0 <> []
  /\ mergeAllWorkerBranches FakeGit.git FakeGit.registry (js "alpha") repoRoot0
       (Some []) FakeGit.init
     = mergeLoop FakeGit.git (js "main") repoRoot0
         (FakeGit.registry (js "alpha") repoRoot0) []
         (called FakeGit.git (currentBranchCall repoRoot0) FakeGit.init).
Proof.
  assert (Hne : FakeGit.registry (js "alpha") repoRoot0 <> []) by discriminate.
  split; [exact Hne|].
  exact (proj2 (@mergeAllWorkerBranches_empty_base _ FakeGit.git FakeGit.registry
                  (js "alpha") repoRoot0 FakeGit.init) Hne).
Defined.

(** ** Call traces of the coordinator *)

Section Traces.

Variable Repo : Type.
Variable git : Repo -> Call -> Completion jsstring * Repo.

Implicit Types (w : World Repo) (c : Call) (P : Call -> Prop).

Lemma emits_ret P A (a : A) : emits P (ret (Repo:=Repo) a).
Proof. intros w. exists []. simpl. now rewrite app_nil_r. Qed.

Lemma emits_bind P A B (m : M Repo A) (k : A -> M Repo B) :
  emits P m -> (forall a, emits P (k a)) -> emits P (bind m k).
Proof.
  intros Hm Hk w. unfold bind.
  destruct (Hm w) as (l1 & H1 & F1).
  destruct (m w) as [[a|e] w1]; simpl in H1.
  - destruct (Hk a w1) as (l2 & H2 & F2).
    exists (l1 ++ l2). rewrite H2, H1, app_assoc. split; [reflexivity|].
    apply Forall_app; auto.
  - exists l1. auto.
Qed.

Lemma emits_try_catch P A (m : M Repo A) (h : exn -> M Repo A) :
  emits P m -> (forall e, emits P (h e)) -> emits P (try_catch m h).
Proof.
  intros Hm Hh w. unfold try_catch.
  destruct (Hm w) as (l1 & H1 & F1).
  destruct (m w) as [[a|e] w1]; simpl in H1.
  - exists l1. auto.
  - destruct (Hh e w1) as (l2 & H2 & F2).
    exists (l1 ++ l2). rewrite H2, H1, app_assoc. split; [reflexivity|].
    apply Forall_app; auto.
Qed.

Lemma emits_execFileSync P f a dir :
  P (mkCall f a dir) -> emits P (execFileSync git f a dir).
Proof.
  intros HP w. rewrite execFileSync_run. exists [mkCall f a dir]. simpl.
  split; [reflexivity | auto].
Qed.

Lemma emits_weaken P Q A (m : M Repo A) :
  (forall c, P c -> Q c) -> emits P m -> emits Q m.
Proof.
  intros HPQ Hm w. destruct (Hm w) as (l & H & F).
  exists l. split; [exact H|]. eapply Forall_impl; eauto.
Qed.

Lemma emits_checkMergeConflicts workerBranch baseBranch repoRoot :
  emits (detectorCall workerBranch baseBranch repoRoot)
    (checkMergeConflicts git workerBranch baseBranch repoRoot).
Proof. intros w. apply checkMergeConflicts_trace. Qed.

Lemma emits_mergeWorkerBranch workerBranch baseBranch repoRoot :
  emits (attemptCall workerBranch baseBranch repoRoot)
    (mergeWorkerBranch git workerBranch baseBranch repoRoot).
Proof.
  unfold mergeWorkerBranch. cbv zeta.
  apply emits_try_catch.
  - apply emits_bind; [apply emits_execFileSync; left; reflexivity|].
    intros _. apply emits_bind.
    { apply emits_execFileSync. right; left; reflexivity. }
    intros _. apply emits_bind.
    { apply emits_execFileSync. right; right; left; reflexivity. }
    intros out. apply emits_ret.
  - intros _. apply emits_bind.
    { apply emits_try_catch; [|intros _; apply emits_ret].
      apply emits_bind; [|intros _; apply emits_ret].
      apply emits_execFileSync. right; right; right; left; reflexivity. }
    intros _. apply emits_bind; [|intros cs; apply emits_ret].
    eapply emits_weaken; [|apply emits_checkMergeConflicts].
    intros c Hc. right; right; right; right. exact Hc.
Qed.

Lemma emits_mergeLoop all base repoRoot worktrees :
  incl worktrees all ->
  forall acc, emits (batchCall all base repoRoot)
                (mergeLoop git base repoRoot worktrees acc).
Proof.
  induction worktrees as [|wt rest IH]; intros Hincl acc; simpl.
  - apply emits_ret.
  - apply emits_bind.
    + eapply emits_weaken; [|apply emits_mergeWorkerBranch].
      intros c Hc. exists wt. split; [apply Hincl; now left | exact Hc].
    + intros r. cbv zeta. destruct (negb (success r)); [apply emits_ret|].
      apply IH. intros x Hx. apply Hincl. now right.
Qed.

Lemma attemptCall_gitIn workerBranch baseBranch repoRoot c :
  attemptCall workerBranch baseBranch repoRoot c -> gitIn repoRoot c.
Proof.
  intros [->|[->|[->|[->|[->|[mb [->| ->]]]]]]]; split; reflexivity.
Qed.

Lemma attemptCall_not_currentBranch workerBranch baseBranch repoRoot c :
  attemptCall workerBranch baseBranch repoRoot c ->
  args c <> [js "rev-parse"; js "--abbrev-ref"; js "HEAD"].
Proof.
  intros [->|[->|[->|[->|[->|[mb [->| ->]]]]]]]; simpl; discriminate.
Qed.

End Traces.

(** ** Further properties of the coordinator *)

Section CoordinatorExtras.

Variable Repo : Type.
Variable git : Repo -> Call -> Completion jsstring * Repo.

Implicit Types (w : World Repo) (c : Call).

Lemma called_repo c w : repo (called git c w) = snd (git (repo w) c).
Proof. reflexivity. Qed.

Lemma checkMergeConflicts_preserves_repo workerBranch baseBranch repoRoot w :
  queriesReadOnly git ->
  repo (snd (checkMergeConflicts git workerBranch baseBranch repoRoot w)) = repo w.
Proof.
  intros Hro.
  rewrite checkMergeConflicts_run. cbv zeta.
  assert (Hcalled : forall c v, read_only c = true ->
                                repo (called git c v) = repo v).
  { intros c v Hc. rewrite called_repo. now apply Hro. }
  repeat match goal with
         | |- context [match ?x with Normal _ => _ | Throw _ => _ end] =>
             destruct x
         end; simpl snd; repeat (rewrite Hcalled; [|reflexivity]); reflexivity.
Qed.

(** The answer of the detector is read off the repository alone: the calls
    made before do not matter. *)
Lemma checkMergeConflicts_repo_only workerBranch baseBranch repoRoot w v :
  repo w = repo v ->
  fst (checkMergeConflicts git workerBranch baseBranch repoRoot w)
  = fst (checkMergeConflicts git workerBranch baseBranch repoRoot v).
Proof.
  destruct w as [s t], v as [s' t']. simpl. intros <-.
  rewrite !checkMergeConflicts_run. cbv zeta. rewrite ?called_repo. simpl repo.
  destruct (fst (git s _)) as [mb|e]; [|reflexivity].
  rewrite ?called_repo. simpl repo.
  destruct (fst (git _ (diffCall (trim mb) baseBranch repoRoot))) as [bd|e];
    [|reflexivity].
  destruct (fst (git _ (diffCall (trim mb) workerBranch repoRoot))) as [wd|e];
    reflexivity.
Qed.

(** X1.  Detecting twice in a row gives the same answer: the first run
    leaves the repository as it is, as its queries are read-only, and the
    second run reads it again. *)
Theorem checkMergeConflicts_idempotent workerBranch baseBranch repoRoot w :
  queriesReadOnly git ->
  let first := checkMergeConflicts git workerBranch baseBranch repoRoot w in
  let second := checkMergeConflicts git workerBranch baseBranch repoRoot
                  (world_after first) in
  outcome second = outcome first /\ repo (world_after second) = repo w.
Proof.
  intros Hro first second. unfold second, first, outcome, world_after. split.
  - apply checkMergeConflicts_repo_only.
    now apply checkMergeConflicts_preserves_repo.
  - now rewrite !checkMergeConflicts_preserves_repo.
Qed.

Lemma checkMergeConflicts_calls workerBranch baseBranch repoRoot w :
  exists rest,
    trace (snd (checkMergeConflicts git workerBranch baseBranch repoRoot w))
    = trace w ++ mergeBaseCall baseBranch workerBranch repoRoot :: rest
    /\ List.length rest <= 2.
Proof.
  rewrite checkMergeConflicts_run. cbv zeta.
  destruct (fst (git (repo w) _)) as [mb|e]; simpl snd.
  2:{ exists []. split; [reflexivity | simpl; lia]. }
  destruct (fst (git _ (diffCall (trim mb) baseBranch repoRoot))) as [bd|e];
    simpl snd.
  2:{ eexists [_]. rewrite !called_trace, <- app_assoc.
      split; [reflexivity | simpl; lia]. }
  destruct (fst (git _ (diffCall (trim mb) workerBranch repoRoot))) as [wd|e];
    simpl snd; eexists [_; _]; rewrite !called_trace, <- !app_assoc;
    (split; [reflexivity | simpl; lia]).
Qed.

(** X2.  The detector issues at most three calls, the merge-base query
    first; a diff is only asked for once the merge-base query answered, so
    a failing merge-base query is the only call of its run. *)
Theorem checkMergeConflicts_call_budget workerBranch baseBranch repoRoot w :
  let c1 := mergeBaseCall baseBranch workerBranch repoRoot in
  let w' := world_after
              (checkMergeConflicts git workerBranch baseBranch repoRoot w) in
  (exists rest, trace w' = trace w ++ c1 :: rest /\ List.length rest <= 2)
  /\ (forall e, fst (git (repo w) c1) = Throw e -> w' = called git c1 w).
Proof.
  intros c1 w'. split; [apply checkMergeConflicts_calls|].
  unfold w', world_after. rewrite checkMergeConflicts_run. cbv zeta. fold c1.
  intros e ->. reflexivity.
Qed.

Lemma mergeWorkerBranch_names workerBranch baseBranch repoRoot w :
  exists r,
    fst (mergeWorkerBranch git workerBranch baseBranch repoRoot w) = Normal r
    /\ workerName r = or_else (pop (split SLASH workerBranch)) workerBranch
    /\ branch r = workerBranch.
Proof.
  assert (F : forall wf, exists r,
             fst (mergeFailure git workerBranch baseBranch repoRoot wf) = Normal r
             /\ workerName r = or_else (pop (split SLASH workerBranch)) workerBranch
             /\ branch r = workerBranch).
  { intros wf. unfold mergeFailure. cbv zeta.
    destruct (checkMergeConflicts_total git workerBranch baseBranch repoRoot
                (called git (abortCall repoRoot) wf)) as [cs Hcs].
    rewrite Hcs. simpl. eauto. }
  rewrite mergeWorkerBranch_run. cbv zeta.
  destruct (fst (git (repo w) _)); [|apply F].
  destruct (fst (git _ (mergeCall workerBranch baseBranch repoRoot))); [|apply F].
  destruct (fst (git _ (headCommitCall repoRoot))); [|apply F].
  eexists. repeat split.
Qed.

(** X3.  A successful attempt has issued exactly the checkout, the merge
    and the [rev-parse HEAD] query, in this order: no abort and no detector
    query.  Its result carries the trimmed answer of the last one. *)
Theorem mergeWorkerBranch_success_trace workerBranch baseBranch repoRoot w r w' :
  mergeWorkerBranch git workerBranch baseBranch repoRoot w = (Normal r, w') ->
  success r = true ->
  let c1 := checkoutCall baseBranch repoRoot in
  let c2 := mergeCall workerBranch baseBranch repoRoot in
  let c3 := headCommitCall repoRoot in
  w' = called git c3 (called git c2 (called git c1 w))
  /\ trace w' = trace w ++ [c1; c2; c3]
  /\ exists out,
       fst (git (repo (called git c2 (called git c1 w))) c3) = Normal out
       /\ mergeCommit r = Some (trim out).
Proof.
  intros Hrun Hs c1 c2 c3. rewrite mergeWorkerBranch_run in Hrun. cbv zeta in Hrun.
  fold c1 c2 c3 in Hrun.
  assert (F : forall wf,
             mergeFailure git workerBranch baseBranch repoRoot wf = (Normal r, w') ->
             False).
  { intros wf Hf.
    destruct (mergeFailure_fails git workerBranch baseBranch repoRoot wf)
      as (r' & Hr' & Hs' & _).
    rewrite Hf in Hr'. simpl in Hr'. congruence. }
  destruct (fst (git (repo w) c1)); [|now apply F in Hrun].
  destruct (fst (git (repo (called git c1 w)) c2)); [|now apply F in Hrun].
  destruct (fst (git (repo (called git c2 (called git c1 w))) c3)) as [out|e];
    [|now apply F in Hrun].
  injection Hrun as <- <-. split; [reflexivity|]. split.
  - rewrite !called_trace, <- !app_assoc. reflexivity.
  - exists out. split; reflexivity.
Qed.

(** X4.  Every attempt begins by checking out the base branch and issues
    at most seven calls, each of them [git] run in the repository root. *)
Theorem mergeWorkerBranch_call_budget workerBranch baseBranch repoRoot w :
  let w' := world_after
              (mergeWorkerBranch git workerBranch baseBranch repoRoot w) in
  exists rest,
    trace w' = trace w ++ checkoutCall baseBranch repoRoot :: rest
    /\ List.length rest <= 6
    /\ Forall (gitIn repoRoot) rest.
Proof.
  intros w'.
  assert (G : exists calls, trace w' = trace w ++ calls
                            /\ Forall (gitIn repoRoot) calls).
  { destruct (emits_mergeWorkerBranch git workerBranch baseBranch repoRoot w)
      as (calls & Ht & Hf).
    exists calls. split; [exact Ht|].
    eapply Forall_impl; [|exact Hf]. intros c. apply attemptCall_gitIn. }
  assert (L : exists rest,
             trace w' = trace w ++ checkoutCall baseBranch repoRoot :: rest
             /\ List.length rest <= 6).
  { unfold w', world_after. rewrite mergeWorkerBranch_run. cbv zeta.
    assert (F : forall wf n pre,
               trace wf = trace w ++ checkoutCall baseBranch repoRoot :: pre ->
               List.length pre <= n -> n <= 2 ->
               exists rest,
                 trace (snd (mergeFailure git workerBranch baseBranch repoRoot wf))
                 = trace w ++ checkoutCall baseBranch repoRoot :: rest
                 /\ List.length rest <= 6).
    { intros wf n pre Hwf Hpre Hn. unfold mergeFailure. cbv zeta. simpl snd.
      destruct (checkMergeConflicts_calls workerBranch baseBranch repoRoot
                  (called git (abortCall repoRoot) wf)) as (rest & Ht & Hl).
      rewrite Ht, called_trace, Hwf.
      exists (pre ++ abortCall repoRoot
                :: mergeBaseCall baseBranch workerBranch repoRoot :: rest).
      split.
      - rewrite <- !app_assoc. reflexivity.
      - rewrite length_app. simpl. lia. }
    destruct (fst (git (repo w) _)).
    2:{ apply (F _ 0 []); [apply called_trace | simpl; lia | lia]. }
    destruct (fst (git _ (mergeCall workerBranch baseBranch repoRoot))).
    2:{ apply (F _ 1 [mergeCall workerBranch baseBranch repoRoot]);
          [|simpl; lia | lia].
        rewrite !called_trace, <- app_assoc. reflexivity. }
    destruct (fst (git _ (headCommitCall repoRoot))).
    2:{ apply (F _ 2 [mergeCall workerBranch baseBranch repoRoot;
                      headCommitCall repoRoot]); [|simpl; lia | lia].
        rewrite !called_trace, <- !app_assoc. reflexivity. }
    simpl snd. eexists [_; _]. rewrite !called_trace, <- !app_assoc.
    split; [reflexivity | simpl; lia]. }
  destruct G as (calls & Hc & Hg). destruct L as (rest & Hr & Hl).
  exists rest. split; [exact Hr|]. split; [exact Hl|].
  rewrite Hr in Hc. apply app_inv_head in Hc. subst calls.
  now inversion Hg.
Qed.

Lemma lastIndexOf_none (sep : N) (s : jsstring) :
  lastIndexOf sep s = None -> ~ In sep s.
Proof.
  induction s as [|d s IH]; [auto|].
  simpl. destruct (lastIndexOf sep s); [discriminate|].
  destruct (N.eqb d sep) eqn:Ed; [discriminate|].
  apply N.eqb_neq in Ed. intros _ [H|H]; [congruence | now apply IH].
Qed.

Lemma lastIndexOf_skipn (sep : N) (s : jsstring) (i : nat) :
  lastIndexOf sep s = Some i -> ~ In sep (skipn (S i) s).
Proof.
  revert i. induction s as [|c s IH]; intros i; simpl lastIndexOf; [discriminate|].
  destruct (lastIndexOf sep s) as [j|] eqn:E.
  - intros [= <-]. change (skipn (S (S j)) (c :: s)) with (skipn (S j) s).
    now apply IH.
  - destruct (N.eqb c sep); [|discriminate].
    intros [= <-]. simpl skipn. now apply lastIndexOf_none.
Qed.

Lemma lastSegment_no_separator (s : jsstring) : ~ In SLASH (lastSegment s).
Proof.
  unfold lastSegment. destruct (lastIndexOf SLASH s) as [i|] eqn:E.
  - now apply lastIndexOf_skipn.
  - now apply lastIndexOf_none.
Qed.

(** X5.  The worker name of a result is empty only for the empty branch
    name, and it is a single path segment, free of ['/'], unless the branch
    name ends with ['/']. *)
Theorem mergeWorkerBranch_workerName_segment workerBranch baseBranch repoRoot w :
  exists r,
    outcome (mergeWorkerBranch git workerBranch baseBranch repoRoot w) = Normal r
    /\ (workerName r = [] <-> workerBranch = [])
    /\ (lastSegment workerBranch <> [] -> ~ In SLASH (workerName r)).
Proof.
  destruct (mergeWorkerBranch_names workerBranch baseBranch repoRoot w)
    as (r & Hr & Hn & _).
  exists r. split; [exact Hr|]. rewrite Hn, pop_split.
  destruct (lastSegment workerBranch) as [|c seg] eqn:E; cbn [or_else truthy].
  - split; [tauto | congruence].
  - split.
    + split; [discriminate|]. intros ->. discriminate E.
    + intros _. rewrite <- E. apply lastSegment_no_separator.
Qed.

End CoordinatorExtras.

(** ** Further properties of the batch *)

Section BatchExtras.

Variable Repo : Type.
Variable git : Repo -> Call -> Completion jsstring * Repo.
Variable listTeamWorktrees : jsstring -> jsstring -> list Worktree.

Implicit Types (w : World Repo) (c : Call).

Lemma emits_currentBranch P repoRoot :
  P (currentBranchCall repoRoot) ->
  emits P (bind (execFileSync git (js "git")
                   [js "rev-parse"; js "--abbrev-ref"; js "HEAD"] repoRoot)
             (fun out => ret (Repo:=Repo) (trim out))).
Proof.
  intros HP. apply emits_bind; [|intros out; apply emits_ret].
  apply emits_execFileSync. exact HP.
Qed.

(** X6.  Every command the batch runs is [git], in the repository root it
    was given; this holds whether the batch returns or throws. *)
Theorem mergeAllWorkerBranches_runs_git_in_root teamName repoRoot baseBranch :
  emits (gitIn repoRoot)
    (mergeAllWorkerBranches git listTeamWorktrees teamName repoRoot baseBranch).
Proof.
  unfold mergeAllWorkerBranches. cbv zeta.
  destruct (Nat.eqb _ 0); [apply emits_ret|].
  assert (Q : emits (gitIn repoRoot)
                (bind (execFileSync git (js "git")
                         [js "rev-parse"; js "--abbrev-ref"; js "HEAD"] repoRoot)
                      (fun out => ret (Repo:=Repo) (trim out)))).
  { apply emits_currentBranch. split; reflexivity. }
  apply emits_bind.
  - destruct baseBranch as [b|]; [|exact Q].
    destruct (truthy b); [apply emits_ret | exact Q].
  - intros base. eapply emits_weaken; [|apply emits_mergeLoop, incl_refl].
    intros c (wt & _ & Hc). eapply attemptCall_gitIn. exact Hc.
Qed.

(** X7.  With a base branch supplied non-empty, the batch only issues the
    calls of merge attempts on listed branches against that very base; the
    current-branch query is never made. *)
Theorem mergeAllWorkerBranches_supplied_base teamName repoRoot base :
  base <> [] ->
  emits (fun c =>
           batchCall (listTeamWorktrees teamName repoRoot) base repoRoot c
           /\ c <> currentBranchCall repoRoot)
    (mergeAllWorkerBranches git listTeamWorktrees teamName repoRoot (Some base)).
Proof.
  intros Hbase. unfold mergeAllWorkerBranches. cbv zeta.
  destruct (Nat.eqb _ 0); [apply emits_ret|].
  destruct base as [|x base']; [contradiction|]. cbn [truthy].
  intros w.
  change (bind (ret (x :: base'))
            (fun b => mergeLoop git b repoRoot
                        (listTeamWorktrees teamName repoRoot) []) w)
    with (mergeLoop git (x :: base') repoRoot
            (listTeamWorktrees teamName repoRoot) [] w).
  revert w. eapply emits_weaken; [|apply emits_mergeLoop, incl_refl].
  intros c Hc. split; [exact Hc|].
  destruct Hc as (wt & _ & Hc). intros ->.
  now apply attemptCall_not_currentBranch in Hc.
Qed.

Lemma mergeEach_branches base repoRoot worktrees :
  forall w rs w',
    mergeEach git base repoRoot worktrees w = (Normal rs, w') ->
    map branch rs = map wt_branch worktrees
    /\ Forall (fun r => workerName r
                        = or_else (pop (split SLASH (branch r))) (branch r)) rs.
Proof.
  induction worktrees as [|wt rest IH]; intros w rs w'; simpl.
  - intros [= <- _]. split; [reflexivity | constructor].
  - unfold bind at 1.
    destruct (mergeWorkerBranch_names git (wt_branch wt) base repoRoot w)
      as (r & Hr & Hn & Hb).
    destruct (mergeWorkerBranch git (wt_branch wt) base repoRoot w) as [o w1].
    simpl in Hr. subst o. unfold bind at 1.
    destruct (mergeEach git base repoRoot rest w1) as [[rs'|e] w2] eqn:E;
      [|discriminate].
    intros [= <- _]. destruct (IH _ _ _ E) as [Hm Hf]. split.
    + simpl. now rewrite Hb, Hm.
    + constructor; [now rewrite Hb | exact Hf].
Qed.

(** X8.  Result [i] of a batch is the attempt on the [i]-th listed branch:
    the branches of the results are the first listed branches, in order,
    and every worker name is derived from its branch, the [workerName] of
    the registry entry being left aside. *)
Theorem mergeAllWorkerBranches_results_follow_registry
  teamName repoRoot baseBranch w base w1 :
  let worktrees := listTeamWorktrees teamName repoRoot in
  worktrees <> [] ->
  baseResolved git repoRoot baseBranch w base w1 ->
  exists rs w',
    mergeAllWorkerBranches git listTeamWorktrees teamName repoRoot baseBranch w
    = (Normal rs, w')
    /\ map branch rs = map wt_branch (firstn (List.length rs) worktrees)
    /\ Forall (fun r => workerName r
                        = or_else (pop (split SLASH (branch r))) (branch r)) rs.
Proof.
  intros worktrees Hne Hbase.
  rewrite (@mergeAllWorkerBranches_run _ git listTeamWorktrees
             teamName repoRoot baseBranch w base w1 Hne Hbase).
  fold worktrees.
  destruct (mergeLoop_prefix git base repoRoot worktrees [] w1)
    as (rs & w' & Hl & He & _).
  exists rs, w'. split; [exact Hl|].
  now apply mergeEach_branches in He.
Qed.

Lemma mergeLoop_branches_only base repoRoot :
  forall l1 l2 acc w,
    map wt_branch l1 = map wt_branch l2 ->
    mergeLoop git base repoRoot l1 acc w = mergeLoop git base repoRoot l2 acc w.
Proof.
  induction l1 as [|a l1 IH]; intros [|b l2] acc w; simpl; try discriminate.
  - reflexivity.
  - intros [= Hb Hrest]. rewrite Hb. unfold bind.
    destruct (mergeWorkerBranch git (wt_branch b) base repoRoot w) as [[r|e] w1];
      [|reflexivity].
    destruct (negb (success r)); [reflexivity|].
    now apply IH.
Qed.

End BatchExtras.

Section RegistryExtras.

Variable Repo : Type.
Variable git : Repo -> Call -> Completion jsstring * Repo.

(** X9.  The batch reads nothing but the branch names off the registry:
    two registries that list the same branches, whatever the paths and
    worker names they record, give the same run. *)
Theorem mergeAllWorkerBranches_branches_only
  (registry1 registry2 : jsstring -> jsstring -> list Worktree)
  teamName repoRoot baseBranch (w : World Repo) :
  map wt_branch (registry1 teamName repoRoot)
  = map wt_branch (registry2 teamName repoRoot) ->
  mergeAllWorkerBranches git registry1 teamName repoRoot baseBranch w
  = mergeAllWorkerBranches git registry2 teamName repoRoot baseBranch w.
Proof.
  intros Hmap. unfold mergeAllWorkerBranches. cbv zeta.
  assert (Hlen : List.length (registry1 teamName repoRoot)
                 = List.length (registry2 teamName repoRoot)).
  { rewrite <- (length_map wt_branch (registry1 teamName repoRoot)), Hmap.
    apply length_map. }
  rewrite Hlen. destruct (Nat.eqb _ 0); [reflexivity|].
  assert (E : forall (m : M Repo jsstring) (k1 k2 : jsstring -> M Repo (list MergeResult)),
             (forall b v, k1 b v = k2 b v) -> bind m k1 w = bind m k2 w).
  { intros m k1 k2 Hk. unfold bind. destruct (m w) as [[b|e] v]; auto. }
  apply E. intros b v. now apply mergeLoop_branches_only.
Qed.

End RegistryExtras.

Section ThrowExtras.

Variable Repo : Type.
Variable git : Repo -> Call -> Completion jsstring * Repo.
Variable listTeamWorktrees : jsstring -> jsstring -> list Worktree.

(** X10.  Once the registry has returned its list, an error leaves the
    batch only from the current-branch query: when the batch throws, the
    list is not empty, no usable base was supplied, the query threw that
    very error, and nothing else was run, so no merge was attempted.  The
    registry is taken as a function that returns a list; an exception of
    the registry call itself (line 125) is outside this statement. *)
Theorem mergeAllWorkerBranches_throw_is_base_query
  teamName repoRoot baseBranch (w : World Repo) e :
  let run := mergeAllWorkerBranches git listTeamWorktrees
               teamName repoRoot baseBranch w in
  outcome run = Throw e ->
  listTeamWorktrees teamName repoRoot <> []
  /\ (baseBranch = None \/ baseBranch = Some [])
  /\ fst (git (repo w) (currentBranchCall repoRoot)) = Throw e
  /\ world_after run = called git (currentBranchCall repoRoot) w.
Proof.
  intros run. unfold run, outcome, world_after, mergeAllWorkerBranches. cbv zeta.
  destruct (listTeamWorktrees teamName repoRoot) as [|wt rest] eqn:Ewts;
    cbn [List.length Nat.eqb]; [discriminate|].
  assert (L : forall b v, exists rs v',
             mergeLoop git b repoRoot (wt :: rest) [] v = (Normal rs, v')).
  { intros b v.
    destruct (mergeLoop_prefix git b repoRoot (wt :: rest) [] v)
      as (rs & v' & Hl & _).
    eauto. }
  assert (Q : forall e',
    fst (bind (bind (execFileSync git (js "git")
                       [js "rev-parse"; js "--abbrev-ref"; js "HEAD"] repoRoot)
                    (fun out => ret (trim out)))
              (fun b => mergeLoop git b repoRoot (wt :: rest) []) w) = Throw e' ->
    fst (git (repo w) (currentBranchCall repoRoot)) = Throw e'
    /\ snd (bind (bind (execFileSync git (js "git")
                         [js "rev-parse"; js "--abbrev-ref"; js "HEAD"] repoRoot)
                      (fun out => ret (trim out)))
                (fun b => mergeLoop git b repoRoot (wt :: rest) []) w)
       = called git (currentBranchCall repoRoot) w).
  { intros e'. unfold bind at 1 3. unfold bind at 1 2. rewrite execFileSync_run.
    fold (currentBranchCall repoRoot).
    destruct (fst (git (repo w) (currentBranchCall repoRoot))) as [out|e0].
    - unfold ret at 1 2.
      destruct (L (trim out) (called git (currentBranchCall repoRoot) w))
        as (rs & v' & ->). discriminate.
    - simpl. intros [= ->]. split; reflexivity. }
  destruct baseBranch as [[|x b]|]; cbn [truthy].
  - intros H. apply Q in H as [H1 H2]. repeat split; auto; discriminate.
  - intros H. exfalso. revert H. unfold bind, ret.
    destruct (L (x :: b) w) as (rs & v' & ->). discriminate.
  - intros H. apply Q in H as [H1 H2]. repeat split; auto; discriminate.
Qed.

End ThrowExtras.

(** ** Facts about prefixes, replacement and trimming *)

Lemma startsWith_nil (s : jsstring) : startsWith s [] = true.
Proof. destruct s; reflexivity. Qed.

Lemma startsWith_prefix (s prefix : jsstring) :
  startsWith s prefix = true <-> exists t, s = prefix ++ t.
Proof.
  revert s. induction prefix as [|p prefix IH]; intros s.
  - rewrite startsWith_nil. split; [intros _; now exists s | reflexivity].
  - destruct s as [|c s]; simpl.
    + split; [discriminate | intros [t Ht]; discriminate].
    + rewrite andb_true_iff, N.eqb_eq, IH. split.
      * intros [-> [t ->]]. now exists t.
      * intros [t [= -> ->]]. split; [reflexivity | now exists t].
Qed.

Lemma startsWith_app (s t prefix : jsstring) :
  startsWith s prefix = true -> startsWith (s ++ t) prefix = true.
Proof.
  rewrite !startsWith_prefix. intros [u ->]. exists (u ++ t). now rewrite app_assoc.
Qed.

Lemma occursIn_absent_head (c : N) (pat s : jsstring) :
  ~ In c s -> occursIn (c :: pat) s = false.
Proof.
  induction s as [|d s IH]; intros Hc; [reflexivity|].
  simpl. destruct (N.eqb d c) eqn:E.
  - apply N.eqb_eq in E. exfalso. apply Hc. now left.
  - simpl. apply IH. intros H. apply Hc. now right.
Qed.

Lemma replaceAll_absent (pat rep s : jsstring) :
  occursIn pat s = false -> replaceAll pat rep s = s.
Proof.
  unfold replaceAll. induction s as [|c s IH]; [reflexivity|].
  intros H. cbn [occursIn] in H. apply orb_false_iff in H as [H1 H2].
  cbn [replaceAllFrom]. rewrite H1. now rewrite IH.
Qed.

Lemma trimStart_blank (s : jsstring) :
  forallb isWhiteSpace s = true -> trimStart s = [].
Proof.
  induction s as [|c s IH]; [reflexivity|]. simpl.
  intros H. apply andb_true_iff in H as [-> H]. auto.
Qed.

Lemma trimStart_app (s t : jsstring) :
  trimStart (s ++ t)
  = if forallb isWhiteSpace s then trimStart t else trimStart s ++ t.
Proof.
  induction s as [|c s IH]; [reflexivity|]. simpl.
  destruct (isWhiteSpace c); [exact IH | reflexivity].
Qed.

Lemma trimStart_idempotent (s : jsstring) : trimStart (trimStart s) = trimStart s.
Proof.
  induction s as [|c s IH]; [reflexivity|]. simpl.
  destruct (isWhiteSpace c) eqn:E; [exact IH|]. simpl. now rewrite E.
Qed.

(** What [trimStart] drops is white space. *)
Lemma trimStart_split (s : jsstring) :
  exists v, s = v ++ trimStart s /\ forallb isWhiteSpace v = true.
Proof.
  induction s as [|c s (v & Hv & Hw)]; [now exists []|]. simpl.
  destruct (isWhiteSpace c) eqn:E.
  - exists (c :: v). simpl. rewrite E, Hw. split; [now f_equal | reflexivity].
  - now exists [].
Qed.

Lemma forallb_rev (f : N -> bool) (l : list N) :
  forallb f (rev l) = forallb f l.
Proof.
  induction l as [|x l IH]; [reflexivity|]. simpl.
  rewrite forallb_app, IH. simpl. rewrite andb_true_r. apply andb_comm.
Qed.

Lemma trimEnd_app (s t : jsstring) :
  trimEnd (s ++ t)
  = if forallb isWhiteSpace t then trimEnd s else s ++ trimEnd t.
Proof.
  unfold trimEnd. rewrite rev_app_distr, trimStart_app, forallb_rev.
  destruct (forallb isWhiteSpace t); [reflexivity|].
  now rewrite rev_app_distr, rev_involutive.
Qed.

Lemma trimEnd_split (s : jsstring) :
  exists v, s = trimEnd s ++ v /\ forallb isWhiteSpace v = true.
Proof.
  destruct (trimStart_split (rev s)) as (v & Hv & Hw).
  exists (rev v). split.
  - unfold trimEnd. rewrite <- rev_app_distr, <- Hv. now rewrite rev_involutive.
  - now rewrite forallb_rev.
Qed.

Lemma trimStart_blank_iff (s : jsstring) :
  forallb isWhiteSpace s = false -> trimStart s <> [].
Proof.
  induction s as [|c s IH]; [discriminate|]. simpl.
  destruct (isWhiteSpace c); [exact IH | discriminate].
Qed.

(** Appending text to a string only appends text to its trimmed form. *)
Lemma trim_app_extends (s t : jsstring) : exists u, trim (s ++ t) = trim s ++ u.
Proof.
  unfold trim. rewrite trimStart_app.
  destruct (forallb isWhiteSpace s) eqn:Es.
  - rewrite (trimStart_blank _ Es). simpl. eauto.
  - rewrite trimEnd_app.
    destruct (forallb isWhiteSpace t); [exists []; now rewrite app_nil_r|].
    destruct (trimEnd_split (trimStart s)) as (v & Hv & _).
    exists (v ++ trimEnd t). rewrite app_assoc, <- Hv. reflexivity.
Qed.

(** White space around a string does not show in its trimmed form. *)
Lemma trim_padding (pre s post : jsstring) :
  forallb isWhiteSpace pre = true ->
  forallb isWhiteSpace post = true ->
  trim (pre ++ s ++ post) = trim s.
Proof.
  intros Hpre Hpost. unfold trim.
  rewrite trimStart_app, Hpre, trimStart_app.
  destruct (forallb isWhiteSpace s) eqn:Es.
  - now rewrite (trimStart_blank _ Hpost), (trimStart_blank _ Es).
  - now rewrite trimEnd_app, Hpost.
Qed.

(** ** Properties of the advisory permissions *)

Section PermissionsProperties.

Import Permissions.

Variable number : Type.
Variable Infinity : number.
Variable positive belowInfinity : number -> bool.
Variable roundedKB : number -> jsstring.
Variable resolve relative : jsstring -> jsstring -> jsstring.
Variable regExpTest : jsstring -> jsstring -> Completion bool.

Implicit Types (permissions : WorkerPermissions number).

Local Abbreviation isPathAllowed :=
  (Permissions.isPathAllowed resolve relative regExpTest).
Local Abbreviation matchGlob := (Permissions.matchGlob regExpTest).

(** X11.  Prefix scoping is closed under extension: once a command is
    allowed, so is every command obtained by appending text to it. *)
Theorem isCommandAllowed_extension permissions (command suffix : jsstring) :
  isCommandAllowed permissions command = true ->
  isCommandAllowed permissions (command ++ suffix) = true.
Proof.
  unfold isCommandAllowed.
  destruct (Nat.eqb _ 0); [reflexivity|]. cbv zeta.
  rewrite !existsb_exists. intros (prefix & Hin & Hp).
  exists prefix. split; [exact Hin|].
  destruct (trim_app_extends command suffix) as [u ->].
  now apply startsWith_app.
Qed.

(** X12.  White space before and after a command does not change the
    verdict. *)
Theorem isCommandAllowed_padding permissions (pre command post : jsstring) :
  forallb isWhiteSpace pre = true ->
  forallb isWhiteSpace post = true ->
  isCommandAllowed permissions (pre ++ command ++ post)
  = isCommandAllowed permissions command.
Proof.
  intros Hpre Hpost. unfold isCommandAllowed. cbv zeta.
  now rewrite trim_padding.
Qed.

(** X13.  A path that resolves outside the working directory, its relative
    form starting with [..], is denied before any pattern is looked at:
    the answer is [false] whatever the permissions, malformed patterns
    included. *)
Theorem isPathAllowed_escape permissions (filePath workingDirectory : jsstring) :
  startsWith (relative workingDirectory (resolve workingDirectory filePath))
    (js "..") = true ->
  isPathAllowed permissions filePath workingDirectory = Normal false.
Proof.
  intros H. unfold Permissions.isPathAllowed. cbv zeta. now rewrite H.
Qed.

Lemma forOf_hit {A R : Type} (pre post : list A) (x : A) (r : R)
  (body : A -> Completion (option R)) :
  Forall (fun y => body y = Normal None) pre ->
  body x = Normal (Some r) ->
  forOf (pre ++ x :: post) body = Normal (Some r).
Proof.
  intros Hpre Hx. induction Hpre as [|y pre Hy _ IH]; simpl.
  - now rewrite Hx.
  - now rewrite Hy.
Qed.

Lemma forOf_miss {A R : Type} (items : list A)
  (body : A -> Completion (option R)) :
  Forall (fun y => body y = Normal None) items ->
  forOf items body = Normal None.
Proof.
  intros H. induction H as [|y l Hy _ IH]; simpl; [reflexivity|].
  now rewrite Hy.
Qed.

Lemma forOf_app_none {A R : Type} (l1 l2 : list A)
  (body : A -> Completion (option R)) :
  forOf (l1 ++ l2) body = Normal None -> forOf l1 body = Normal None.
Proof.
  induction l1 as [|y l1 IH]; simpl; [reflexivity|].
  destruct (body y) as [[r|]|e]; auto.
Qed.

(** X14.  Denied paths override allowed paths: when a denied pattern
    matches, the patterns before it not matching, the path is denied
    whatever the allowed patterns are. *)
Theorem isPathAllowed_denied_overrides
  permissions (filePath workingDirectory : jsstring) pre pattern post :
  let relPath := relative workingDirectory (resolve workingDirectory filePath) in
  deniedPaths permissions = pre ++ pattern :: post ->
  Forall (fun p => matchGlob p relPath = Normal false) pre ->
  matchGlob pattern relPath = Normal true ->
  isPathAllowed permissions filePath workingDirectory = Normal false.
Proof.
  intros relPath Hd Hpre Hp. unfold Permissions.isPathAllowed. cbv zeta.
  fold relPath. destruct (startsWith relPath (js "..")); [reflexivity|].
  rewrite Hd.
  erewrite forOf_hit; [reflexivity | |].
  - eapply Forall_impl; [|exact Hpre]. intros p Hq. simpl. now rewrite Hq.
  - simpl. now rewrite Hp.
Qed.

(** The loops of [isPathAllowed] over well-formed patterns. *)
Lemma forOf_matchGlob (relPath : jsstring) (result : bool)
  (m : jsstring -> bool) (patterns : list jsstring) :
  Forall (fun p => matchGlob p relPath = Normal (m p)) patterns ->
  forOf patterns (fun pattern =>
    andThen (matchGlob pattern relPath) (fun b =>
    Normal (if b then Some result else None)))
  = Normal (if existsb m patterns then Some result else None).
Proof.
  intros H. induction H as [|p l Hp _ IH]; simpl; [reflexivity|].
  rewrite Hp. simpl. destruct (m p); [reflexivity | exact IH].
Qed.

(** X15.  With well-formed patterns, a path is allowed exactly when it
    stays inside the working directory, no denied pattern matches it, and
    the allow list is empty or one of its patterns matches. *)
Theorem isPathAllowed_decision
  permissions (filePath workingDirectory : jsstring) (m : jsstring -> bool) :
  let relPath := relative workingDirectory (resolve workingDirectory filePath) in
  Forall (fun p => matchGlob p relPath = Normal (m p))
    (deniedPaths permissions ++ allowedPaths permissions) ->
  isPathAllowed permissions filePath workingDirectory
  = Normal (negb (startsWith relPath (js ".."))
            && negb (existsb m (deniedPaths permissions))
            && (match allowedPaths permissions with
                | [] => true
                | _ :: _ => existsb m (allowedPaths permissions)
                end)).
Proof.
  intros relPath H. apply Forall_app in H as [Hd Ha].
  unfold Permissions.isPathAllowed. cbv zeta. fold relPath.
  destruct (startsWith relPath (js "..")); [reflexivity|].
  rewrite (@forOf_matchGlob relPath false m _ Hd). simpl andThen.
  destruct (existsb m (deniedPaths permissions)); [reflexivity|].
  destruct (allowedPaths permissions) as [|a l] eqn:Ea; [reflexivity|].
  cbn [List.length Nat.eqb].
  rewrite (@forOf_matchGlob relPath true m _ Ha). simpl.
  destruct (m a || existsb m l); reflexivity.
Qed.

(** X16.  Denying more never allows more: a path allowed under a deny
    list extended by further patterns is allowed under the shorter list. *)
Theorem isPathAllowed_deny_monotone
  (name : jsstring) (allowed denied extra commands : list jsstring)
  (size : number) (filePath workingDirectory : jsstring) :
  isPathAllowed (mkWorkerPermissions name allowed (denied ++ extra) commands size)
    filePath workingDirectory = Normal true ->
  isPathAllowed (mkWorkerPermissions name allowed denied commands size)
    filePath workingDirectory = Normal true.
Proof.
  unfold Permissions.isPathAllowed. cbv zeta. simpl deniedPaths. simpl allowedPaths.
  destruct (startsWith _ (js "..")); [discriminate|].
  match goal with
  | |- andThen (forOf (denied ++ extra) ?body) _ = _ -> _ =>
      destruct (forOf (denied ++ extra) body) as [[r|]|e] eqn:E
  end; simpl andThen.
  - destruct r; [|discriminate].
    exfalso. revert E. clear.
    induction (denied ++ extra) as [|p l IH]; simpl; [discriminate|].
    destruct (matchGlob p _) as [[|]|e]; simpl; auto; discriminate.
  - apply forOf_app_none in E. rewrite E. simpl. auto.
  - discriminate.
Qed.

(** X17.  The default permissions allow every command, and allow a path
    exactly when it stays inside the working directory; no pattern is
    evaluated, so the check cannot throw. *)
Theorem getDefaultPermissions_allows (name command filePath workingDirectory : jsstring) :
  isCommandAllowed (getDefaultPermissions Infinity name) command = true
  /\ isPathAllowed (getDefaultPermissions Infinity name) filePath workingDirectory
     = Normal (negb (startsWith
                       (relative workingDirectory
                          (resolve workingDirectory filePath)) (js ".."))).
Proof.
  split; [reflexivity|].
  unfold Permissions.isPathAllowed. cbv zeta. simpl.
  destruct (startsWith _ (js "..")); reflexivity.
Qed.

(** X18.  A pattern without ['*'] and ['?'] that does not spell the
    internal placeholder reaches the regular-expression engine verbatim,
    anchored at both ends: its other characters are not escaped. *)
Theorem matchGlob_verbatim (pattern path : jsstring) :
  ~ In 42%N pattern ->
  ~ In 63%N pattern ->
  occursIn (js "___DOUBLESTAR___") pattern = false ->
  matchGlob pattern path = regExpTest (js "^" ++ pattern ++ js "$") path.
Proof.
  intros Hstar Hq Hph. unfold Permissions.matchGlob, globSource. cbv zeta.
  rewrite (replaceAll_absent (js "**") _ pattern)
    by (now apply (occursIn_absent_head 42%N [42%N])).
  rewrite (replaceAll_absent (js "*") _ pattern)
    by (now apply (occursIn_absent_head 42%N [])).
  rewrite (replaceAll_absent _ _ pattern Hph).
  rewrite (replaceAll_absent (js "?") _ pattern)
    by (now apply (occursIn_absent_head 63%N [])).
  reflexivity.
Qed.

(** X19.  The instructions always open with the header line followed by a
    bullet; with nothing restricted they are the header and the
    no-restriction line, which holds of the default permissions as
    [Infinity] is not below itself. *)
Theorem formatPermissionInstructions_shape permissions :
  let text := formatPermissionInstructions positive belowInfinity roundedKB
                permissions in
  (exists rest, text = js "PERMISSION CONSTRAINTS:" ++ [LF] ++ js "- " ++ rest)
  /\ (allowedPaths permissions = [] ->
      deniedPaths permissions = [] ->
      allowedCommands permissions = [] ->
      positive (maxFileSize permissions)
      && belowInfinity (maxFileSize permissions) = false ->
      text = js "PERMISSION CONSTRAINTS:" ++ [LF]
             ++ js "- No restrictions (full access within working directory)")
  /\ (belowInfinity Infinity = false ->
      forall name,
        formatPermissionInstructions positive belowInfinity roundedKB
          (getDefaultPermissions Infinity name)
        = js "PERMISSION CONSTRAINTS:" ++ [LF]
          ++ js "- No restrictions (full access within working directory)").
Proof.
  intros text. split; [|split].
  - unfold text, formatPermissionInstructions. cbv zeta.
    destruct permissions as [n ap dp ac sz]. simpl.
    destruct ap as [|a ap], dp as [|d dp], ac as [|c ac];
      destruct (positive sz && belowInfinity sz);
      cbn [List.length Nat.ltb Nat.leb Nat.eqb app join];
      eexists; reflexivity.
  - intros Ha Hd Hc Hs. unfold text, formatPermissionInstructions. cbv zeta.
    rewrite Ha, Hd, Hc, Hs. reflexivity.
  - intros Hinf name. unfold formatPermissionInstructions. cbv zeta. simpl.
    rewrite Hinf, andb_false_r. reflexivity.
Qed.

End PermissionsProperties.

(** ** Lines of a log: splitting and joining *)

Lemma split_segments_clean (sep : N) (s : jsstring) :
  Forall (fun seg => ~ In sep seg) (split sep s).
Proof.
  induction s as [|c s IH]; simpl.
  - constructor; [intros [] | constructor].
  - destruct (N.eqb c sep) eqn:E.
    + constructor; [intros [] | exact IH].
    + destruct (split sep s) as [|seg segs]; [repeat constructor; intros [H|[]]|].
      * apply N.eqb_neq in E. congruence.
      * inversion IH as [|? ? Hseg Hsegs]; subst. constructor; [|exact Hsegs].
        apply N.eqb_neq in E. intros [H|H]; [congruence | contradiction].
Qed.

Lemma split_clean (sep : N) (x : jsstring) : ~ In sep x -> split sep x = [x].
Proof.
  induction x as [|c x IH]; intros H; [reflexivity|]. simpl.
  destruct (N.eqb c sep) eqn:E.
  - apply N.eqb_eq in E. exfalso. apply H. now left.
  - rewrite IH; [reflexivity|]. intros Hx. apply H. now right.
Qed.

Lemma split_app_sep (sep : N) (x r : jsstring) :
  ~ In sep x -> split sep (x ++ sep :: r) = x :: split sep r.
Proof.
  induction x as [|c x IH]; intros H; simpl.
  - now rewrite N.eqb_refl.
  - destruct (N.eqb c sep) eqn:E.
    + apply N.eqb_eq in E. exfalso. apply H. now left.
    + rewrite IH; [reflexivity|]. intros Hx. apply H. now right.
Qed.

(** Joining clean lines with the separator, one more separator closing the
    text, and splitting again gives the lines back, then an empty one. *)
Lemma split_join (sep : N) (x : jsstring) (l : list jsstring) :
  Forall (fun seg => ~ In sep seg) (x :: l) ->
  split sep (join [sep] (x :: l) ++ [sep]) = (x :: l) ++ [[]].
Proof.
  revert x. induction l as [|y l IH]; intros x H.
  - inversion H; subst. simpl. now rewrite split_app_sep.
  - inversion H as [|? ? Hx Hl]; subst.
    assert (E : join [sep] (x :: y :: l) ++ [sep]
                = x ++ sep :: (join [sep] (y :: l) ++ [sep])).
    { change (join [sep] (x :: y :: l)) with (x ++ [sep] ++ join [sep] (y :: l)).
      rewrite <- app_assoc. reflexivity. }
    rewrite E, split_app_sep by assumption.
    rewrite IH by assumption. reflexivity.
Qed.

Lemma entries_clean (content : jsstring) :
  Forall (fun l => ~ In LF l /\ truthy (trim l) = true) (AuditLog.entries content).
Proof.
  unfold AuditLog.entries. apply Forall_forall. intros l Hl.
  apply filter_In in Hl as [Hin Ht]. split; [|exact Ht].
  pose proof (split_segments_clean LF content) as H.
  rewrite Forall_forall in H. now apply H.
Qed.

Lemma Forall_skipn {A : Type} (P : A -> Prop) (n : nat) (l : list A) :
  Forall P l -> Forall P (skipn n l).
Proof.
  revert l. induction n as [|n IH]; intros l H; [exact H|].
  destruct l; [constructor|]. inversion H; subst. simpl. auto.
Qed.

Lemma filter_all {A : Type} (f : A -> bool) (l : list A) :
  Forall (fun x => f x = true) l -> filter f l = l.
Proof.
  intros H. induction H as [|x l Hx _ IH]; simpl; [reflexivity|].
  now rewrite Hx, IH.
Qed.

Lemma last_app_nonempty {A : Type} (l1 l2 : list A) (d : A) :
  l2 <> [] -> last (l1 ++ l2) d = last l2 d.
Proof.
  intros H. induction l1 as [|a l1 IH]; [reflexivity|].
  simpl. destruct (l1 ++ l2) eqn:E; [|exact IH].
  apply app_eq_nil in E as [_ E]. contradiction.
Qed.

(** ** Properties of the audit log *)

(** X20.  What a rotation writes reads back as what it keeps: the entries
    of the rotated text are the kept entries, unchanged and in order. *)
Theorem rotation_round_trip (content : jsstring) :
  AuditLog.entries (AuditLog.rotated content) = AuditLog.kept content.
Proof.
  assert (Hk : Forall (fun l => ~ In LF l /\ truthy (trim l) = true)
                 (AuditLog.kept content)).
  { apply Forall_skipn, entries_clean. }
  unfold AuditLog.rotated. destruct (AuditLog.kept content) as [|x l].
  - reflexivity.
  - unfold AuditLog.entries.
    rewrite split_join by (eapply Forall_impl; [|exact Hk]; now intros a [Ha _]).
    rewrite filter_app. simpl filter at 2. rewrite app_nil_r.
    apply filter_all. eapply Forall_impl; [|exact Hk]. now intros a [_ Ha].
Qed.

(** X21.  A rotation keeps the most recent half of the entries, rounded
    up: the kept entries are the tail of the log left after dropping the
    first [n / 2] of its [n] entries, so a log with entries keeps its last
    one, and a log with one entry keeps it. *)
Theorem rotation_keeps_recent_half (content : jsstring) :
  let all := AuditLog.entries content in
  let n := List.length all in
  all = firstn (n / 2) all ++ AuditLog.kept content
  /\ List.length (AuditLog.kept content) = n - n / 2
  /\ (all <> [] ->
      AuditLog.kept content <> []
      /\ last (AuditLog.kept content) [] = last all []).
Proof.
  intros all n. unfold AuditLog.kept. fold all. fold n.
  split; [symmetry; apply firstn_skipn|].
  split; [apply length_skipn|].
  intros Hne.
  assert (Hn : 0 < n) by (unfold n; destruct all; [contradiction | simpl; lia]).
  assert (Hlt : n / 2 < n) by (apply Nat.div_lt; lia).
  assert (Hk : skipn (n / 2) all <> []).
  { intros E. apply (f_equal (@List.length _)) in E.
    rewrite length_skipn in E. cbn [List.length] in E. fold n in E. lia. }
  split; [exact Hk|].
  rewrite <- (firstn_skipn (n / 2) all) at 2.
  symmetry. now apply last_app_nonempty.
Qed.

Section AuditLogProperties.

Import AuditLog.

Variable Fs : Type.
Variable number : Type.
Variable fsBool : Fs -> FsCall -> bool * Fs.
Variable fsNumber : Fs -> FsCall -> Completion number * Fs.
Variable fsString : Fs -> FsCall -> Completion jsstring * Fs.
Variable fsVoid : Fs -> FsCall -> Completion unit * Fs.
Variable numLe : number -> number -> bool.
Variable DEFAULT_MAX_LOG_SIZE : number.
Variable pathJoin : list jsstring -> jsstring.
Variable Any : Type.
Variable JSON_parse : jsstring -> Completion Any.
Variable getProp : Any -> jsstring -> Completion Any.
Variable strictEq : Any -> jsstring -> bool.
Variable greaterEq : Any -> jsstring -> Completion bool.
Variable AuditEvent : Type.
Variable teamName : AuditEvent -> jsstring.
Variable JSON_stringify : AuditEvent -> Completion jsstring.

Implicit Types (w : FsWorld Fs) (c : FsCall).

Local Abbreviation rotateAuditLog :=
  (AuditLog.rotateAuditLog fsBool fsNumber fsString fsVoid numLe
     DEFAULT_MAX_LOG_SIZE pathJoin).
Local Abbreviation readAuditLog :=
  (AuditLog.readAuditLog fsBool fsString pathJoin JSON_parse getProp
     strictEq greaterEq).
Local Abbreviation logAuditEvent :=
  (AuditLog.logAuditEvent fsVoid pathJoin teamName JSON_stringify).
Local Abbreviation logPathOf := (AuditLog.getLogPath pathJoin).

Lemma existsSync_run path w :
  existsSync fsBool path w
  = (Normal (fst (fsBool (disk w) (ExistsSync path))),
     afterBool fsBool (ExistsSync path) w).
Proof.
  unfold existsSync, afterBool. destruct (fsBool (disk w) _); reflexivity.
Qed.

Lemma statSyncSize_run path w :
  statSyncSize fsNumber path w
  = (fst (fsNumber (disk w) (StatSync path)),
     afterNumber fsNumber (StatSync path) w).
Proof.
  unfold statSyncSize, afterNumber. destruct (fsNumber (disk w) _); reflexivity.
Qed.

Lemma readFileSync_run path encoding w :
  readFileSync fsString path encoding w
  = (fst (fsString (disk w) (ReadFileSync path encoding)),
     afterString fsString (ReadFileSync path encoding) w).
Proof.
  unfold readFileSync, afterString. destruct (fsString (disk w) _); reflexivity.
Qed.

Lemma voidCall_run c w :
  voidCall fsVoid c w = (fst (fsVoid (disk w) c), afterVoid fsVoid c w).
Proof.
  unfold voidCall, afterVoid. destruct (fsVoid (disk w) c); reflexivity.
Qed.

(** X22.  A log that does not exist, or whose size is within the limit, is
    left alone: the rotation returns after the existence test, or after
    the size query, without reading or writing anything. *)
Theorem rotateAuditLog_within_limit workingDirectory team maxSizeBytes w :
  let limit := match maxSizeBytes with
               | Some m => m
               | None => DEFAULT_MAX_LOG_SIZE
               end in
  let logPath := logPathOf workingDirectory team in
  let w1 := afterBool fsBool (ExistsSync logPath) w in
  let run := rotateAuditLog workingDirectory team maxSizeBytes w in
  (fst (fsBool (disk w) (ExistsSync logPath)) = false -> run = (Normal tt, w1))
  /\ (fst (fsBool (disk w) (ExistsSync logPath)) = true ->
      forall size,
        fst (fsNumber (disk w1) (StatSync logPath)) = Normal size ->
        numLe size limit = true ->
        run = (Normal tt, afterNumber fsNumber (StatSync logPath) w1)).
Proof.
  intros limit logPath w1 run. split.
  - intros H. unfold run, AuditLog.rotateAuditLog. cbv zeta. fold limit logPath.
    unfold seq at 1. rewrite existsSync_run, H. reflexivity.
  - intros H size Hsize Hle.
    unfold run, AuditLog.rotateAuditLog. cbv zeta. fold limit logPath.
    unfold seq at 1. rewrite existsSync_run, H. fold w1. cbn [negb].
    unfold seq at 1. rewrite statSyncSize_run, Hsize, Hle. reflexivity.
Qed.

(** The three calls that replace a log, run one after the other until one
    throws. *)
Lemma replace_steps cW cC cR w3 :
  seq (voidCall fsVoid cW) (fun _ =>
  seq (voidCall fsVoid cC) (fun _ =>
  voidCall fsVoid cR)) w3
  = match fst (fsVoid (disk w3) cW) with
    | Throw e => (Throw e, afterVoid fsVoid cW w3)
    | Normal _ =>
        match fst (fsVoid (disk (afterVoid fsVoid cW w3)) cC) with
        | Throw e => (Throw e, afterVoid fsVoid cC (afterVoid fsVoid cW w3))
        | Normal _ =>
            (fst (fsVoid (disk (afterVoid fsVoid cC (afterVoid fsVoid cW w3))) cR),
             afterVoid fsVoid cR
               (afterVoid fsVoid cC (afterVoid fsVoid cW w3)))
        end
    end.
Proof.
  unfold seq at 1. rewrite voidCall_run.
  destruct (fst (fsVoid (disk w3) cW)) as [[]|e]; [|reflexivity].
  unfold seq. rewrite voidCall_run.
  destruct (fst (fsVoid (disk (afterVoid fsVoid cW w3)) cC)) as [[]|e];
    [|reflexivity].
  now rewrite voidCall_run.
Qed.

(** X23.  A log over the limit is replaced, never rewritten in place: once
    it is read, the kept entries are written to the [.tmp] file beside it.
    When that write throws, the rotation throws the same error and calls
    nothing more; otherwise the file is given mode [0o600], and when that
    throws the rotation throws and calls nothing more; otherwise the file
    is renamed over the log, and the outcome of the rename is the outcome
    of the rotation. *)
Theorem rotateAuditLog_replaces workingDirectory team maxSizeBytes w size content :
  let limit := match maxSizeBytes with
               | Some m => m
               | None => DEFAULT_MAX_LOG_SIZE
               end in
  let logPath := logPathOf workingDirectory team in
  let tmpPath := logPath ++ js ".tmp" in
  let w1 := afterBool fsBool (ExistsSync logPath) w in
  let w2 := afterNumber fsNumber (StatSync logPath) w1 in
  let w3 := afterString fsString (ReadFileSync logPath (js "utf-8")) w2 in
  let cW := WriteFileSync tmpPath (rotated content) in
  let cC := ChmodSync tmpPath 384 in
  let cR := RenameSync tmpPath logPath in
  let w4 := afterVoid fsVoid cW w3 in
  let w5 := afterVoid fsVoid cC w4 in
  let w6 := afterVoid fsVoid cR w5 in
  let run := rotateAuditLog workingDirectory team maxSizeBytes w in
  fst (fsBool (disk w) (ExistsSync logPath)) = true ->
  fst (fsNumber (disk w1) (StatSync logPath)) = Normal size ->
  numLe size limit = false ->
  fst (fsString (disk w2) (ReadFileSync logPath (js "utf-8"))) = Normal content ->
  exists rest,
    calls (world_after run) = calls w3 ++ cW :: rest
    /\ match fst (fsVoid (disk w3) cW) with
       | Throw e => run = (Throw e, w4) /\ rest = []
       | Normal _ =>
           match fst (fsVoid (disk w4) cC) with
           | Throw e => run = (Throw e, w5) /\ rest = [cC]
           | Normal _ =>
               run = (fst (fsVoid (disk w5) cR), w6) /\ rest = [cC; cR]
           end
       end.
Proof.
  intros limit logPath tmpPath w1 w2 w3 cW cC cR w4 w5 w6 run
    Hex Hsize Hle Hread.
  assert (E : run =
    seq (voidCall fsVoid cW) (fun _ =>
    seq (voidCall fsVoid cC) (fun _ =>
    voidCall fsVoid cR)) w3).
  { unfold run, AuditLog.rotateAuditLog. cbv zeta. fold limit logPath.
    unfold seq at 1. rewrite existsSync_run, Hex. fold w1. cbn [negb].
    unfold seq at 1. rewrite statSyncSize_run, Hsize, Hle. fold w2.
    unfold seq at 1. rewrite readFileSync_run, Hread. reflexivity. }
  rewrite E. clear E. rewrite replace_steps. fold w4 w5 w6. unfold world_after.
  destruct (fst (fsVoid (disk w3) cW)) as [[]|e].
  2:{ exists []. repeat split. }
  destruct (fst (fsVoid (disk w4) cC)) as [[]|e].
  2:{ exists [cC]. split; [|split; reflexivity].
      simpl. now rewrite <- app_assoc. }
  exists [cC; cR]. split; [|split; reflexivity].
  simpl. now rewrite <- !app_assoc.
Qed.

Lemma fold_parsed (lines : list jsstring) (acc : list Any) :
  fold_left (fun events line =>
               match JSON_parse line with
               | Normal v => events ++ [v]
               | Throw _ => events
               end) lines acc
  = acc ++ parsed JSON_parse lines.
Proof.
  revert acc. induction lines as [|l lines IH]; intros acc; simpl.
  - now rewrite app_nil_r.
  - rewrite IH. destruct (JSON_parse l); [now rewrite <- app_assoc | reflexivity].
Qed.

(** The prefix every read shares: the existence test, then the file. *)
Lemma readAuditLog_run workingDirectory team filter w :
  let logPath := logPathOf workingDirectory team in
  let w1 := afterBool fsBool (ExistsSync logPath) w in
  let w2 := afterString fsString (ReadFileSync logPath (js "utf-8")) w1 in
  readAuditLog workingDirectory team filter w =
  if fst (fsBool (disk w) (ExistsSync logPath)) then
    match fst (fsString (disk w1) (ReadFileSync logPath (js "utf-8"))) with
    | Throw e => (Throw e, w2)
    | Normal content =>
        let events := parsed JSON_parse (entries content) in
        match filter with
        | None => (Normal events, w2)
        | Some f =>
            (andThen
               (match given (eventType f) with
                | Some wanted =>
                    filterC (fun e =>
                      andThen (getProp e (js "eventType")) (fun v =>
                      Normal (strictEq v wanted))) events
                | None => Normal events
                end) (fun events =>
             andThen
               (match given (workerName f) with
                | Some wanted =>
                    filterC (fun e =>
                      andThen (getProp e (js "workerName")) (fun v =>
                      Normal (strictEq v wanted))) events
                | None => Normal events
                end) (fun events =>
             match given (since f) with
             | Some s =>
                 filterC (fun e =>
                   andThen (getProp e (js "timestamp")) (fun v =>
                   greaterEq v s)) events
             | None => Normal events
             end)), w2)
        end
    end
  else (Normal [], w1).
Proof.
  intros logPath w1 w2. unfold AuditLog.readAuditLog. cbv zeta. fold logPath.
  unfold seq at 1. rewrite existsSync_run. fold w1.
  destruct (fst (fsBool (disk w) (ExistsSync logPath))); [|reflexivity].
  cbn [negb]. unfold seq at 1. rewrite readFileSync_run. fold w2.
  destruct (fst (fsString (disk w1) _)) as [content|e]; [|reflexivity].
  rewrite fold_parsed. cbn [app]. fold (entries content).
  destruct filter as [f|]; [|reflexivity].
  unfold seq, pure, lift.
  destruct (given (eventType f)) as [t|]; cbn [andThen].
  - destruct (filterC _ (parsed JSON_parse (entries content))) as [es1|e1];
      cbn [andThen]; [|reflexivity].
    destruct (given (workerName f)) as [n|]; cbn [andThen].
    + destruct (filterC _ es1) as [es2|e2]; cbn [andThen]; [|reflexivity].
      destruct (given (since f)) as [d|]; cbn [andThen]; [|reflexivity].
      destruct (filterC _ es2); reflexivity.
    + destruct (given (since f)) as [d|]; cbn [andThen]; [|reflexivity].
      destruct (filterC _ es1); reflexivity.
  - cbn [andThen].
    destruct (given (workerName f)) as [n|]; cbn [andThen].
    + destruct (filterC _ (parsed JSON_parse (entries content))) as [es2|e2];
        cbn [andThen]; [|reflexivity].
      destruct (given (since f)) as [d|]; cbn [andThen]; [|reflexivity].
      destruct (filterC _ es2); reflexivity.
    + cbn [andThen].
      destruct (given (since f)) as [d|]; cbn [andThen]; [|reflexivity].
      destruct (filterC _ (parsed JSON_parse (entries content))); reflexivity.
Qed.

(** X24.  Without a filter, reading a missing log gives no event and
    reads nothing; reading an existing one gives the events of its lines
    that parse, in order: blank lines and malformed lines are skipped and
    never make the read throw. *)
Theorem readAuditLog_unfiltered workingDirectory team w :
  let logPath := logPathOf workingDirectory team in
  let w1 := afterBool fsBool (ExistsSync logPath) w in
  let w2 := afterString fsString (ReadFileSync logPath (js "utf-8")) w1 in
  (fst (fsBool (disk w) (ExistsSync logPath)) = false ->
   forall filter,
     readAuditLog workingDirectory team filter w = (Normal [], w1))
  /\ (fst (fsBool (disk w) (ExistsSync logPath)) = true ->
      forall content,
        fst (fsString (disk w1) (ReadFileSync logPath (js "utf-8")))
        = Normal content ->
        readAuditLog workingDirectory team None w
        = (Normal (parsed JSON_parse (entries content)), w2)).
Proof.
  intros logPath w1 w2. split.
  - intros Hex filter. rewrite readAuditLog_run. cbv zeta. fold logPath.
    now rewrite Hex.
  - intros Hex content Hread. rewrite readAuditLog_run. cbv zeta.
    fold logPath w1. now rewrite Hex, Hread.
Qed.

Lemma filterC_total {A : Type} (f : A -> Completion bool) (l : list A) :
  (forall x, In x l -> exists b, f x = Normal b) ->
  filterC f l
  = Normal (filter (fun x => match f x with
                             | Normal b => b
                             | Throw _ => false
                             end) l).
Proof.
  induction l as [|x l IH]; intros H; [reflexivity|]. simpl.
  destruct (H x (or_introl eq_refl)) as [b Hb]. rewrite Hb. simpl.
  rewrite IH by (intros y Hy; apply H; now right). simpl.
  destruct b; reflexivity.
Qed.

Lemma filterC_throws {A : Type} (f : A -> Completion bool) (l : list A) x e :
  In x l -> f x = Throw e -> exists e', filterC f l = Throw e'.
Proof.
  induction l as [|y l IH]; intros Hin Hx; [contradiction|]. simpl.
  destruct (f y) as [b|e0] eqn:Ey; simpl; [|eauto].
  destruct Hin as [->|Hin]; [congruence|].
  destruct (IH Hin Hx) as [e' ->]. simpl. eauto.
Qed.

Lemma filter_filter {A : Type} (f g : A -> bool) (l : list A) :
  filter g (filter f l) = filter (fun x => f x && g x) l.
Proof.
  induction l as [|x l IH]; [reflexivity|]. simpl.
  destruct (f x); simpl; [destruct (g x)|]; now rewrite IH.
Qed.

Lemma filter_true {A : Type} (l : list A) : filter (fun _ => true) l = l.
Proof. induction l; simpl; congruence. Qed.

(** One criterion of a filter, on events for which reading the property
    and comparing it complete. *)
Lemma criterion_stage (field : option jsstring) (property : jsstring)
  (compare : Any -> jsstring -> Completion bool) (events : list Any) :
  (forall e s, In e events -> given field = Some s ->
     exists b, andThen (getProp e property) (fun v => compare v s) = Normal b) ->
  match given field with
  | Some wanted =>
      filterC (fun e =>
        andThen (getProp e property) (fun v => compare v wanted)) events
  | None => Normal events
  end
  = Normal (filter (criterion getProp field property compare) events).
Proof.
  intros H. unfold criterion. destruct (given field) as [wanted|].
  - rewrite filterC_total; [reflexivity|].
    intros e He. now apply H.
  - now rewrite filter_true.
Qed.

(** X25.  With a filter, a read of a log whose events all have readable
    properties, and timestamps that [>=] compares with the [since] asked
    for without throwing, returns the events that meet every criterion
    given, in log order; a criterion that is absent or the empty string is
    met by every event. *)
Theorem readAuditLog_filtered workingDirectory team f w content :
  let logPath := logPathOf workingDirectory team in
  let w1 := afterBool fsBool (ExistsSync logPath) w in
  let w2 := afterString fsString (ReadFileSync logPath (js "utf-8")) w1 in
  let events := parsed JSON_parse (entries content) in
  fst (fsBool (disk w) (ExistsSync logPath)) = true ->
  fst (fsString (disk w1) (ReadFileSync logPath (js "utf-8"))) = Normal content ->
  (forall e property, In e events -> exists v, getProp e property = Normal v) ->
  (forall e v s, In e events -> given (since f) = Some s ->
     getProp e (js "timestamp") = Normal v ->
     exists b, greaterEq v s = Normal b) ->
  readAuditLog workingDirectory team (Some f) w
  = (Normal (filter (matches getProp strictEq greaterEq f) events), w2).
Proof.
  intros logPath w1 w2 events Hex Hread Hprops Hcompare.
  rewrite readAuditLog_run. cbv zeta. fold logPath w1 w2.
  rewrite Hex, Hread. fold events. f_equal.
  assert (Heq : forall property l,
            incl l events ->
            forall e s, In e l ->
              exists b, andThen (getProp e property)
                          (fun v => Normal (strictEq v s)) = Normal b).
  { intros property l Hl e s He.
    destruct (Hprops e property (Hl e He)) as [v ->]. simpl. eauto. }
  pose proof (@criterion_stage (eventType f) (js "eventType")
                (fun v s => Normal (strictEq v s)) events) as S1.
  cbv beta in S1. rewrite S1 by (intros e s He _; now apply (Heq _ events)).
  cbn [andThen]. clear S1.
  set (l1 := filter _ events).
  assert (H1 : incl l1 events) by (intros e He; now apply filter_In in He).
  pose proof (@criterion_stage (workerName f) (js "workerName")
                (fun v s => Normal (strictEq v s)) l1) as S2.
  cbv beta in S2. rewrite S2 by (intros e s He _; now apply (Heq _ l1)).
  cbn [andThen]. clear S2.
  set (l2 := filter _ l1).
  assert (H2 : incl l2 events).
  { intros e He. apply H1. now apply filter_In in He. }
  rewrite (@criterion_stage (since f) (js "timestamp") greaterEq l2).
  2:{ intros e s He Hs. destruct (Hprops e (js "timestamp") (H2 e He)) as [v Hv].
      rewrite Hv. simpl. now apply (Hcompare e v s (H2 e He) Hs). }
  unfold l2, l1. rewrite !filter_filter. f_equal. apply filter_ext. intros e.
  unfold matches. now rewrite andb_assoc.
Qed.

(** X26.  A line that parses to a value whose [eventType] cannot be read,
    as [null], is not skipped the way a malformed line is: with an event
    type asked for, the read throws. *)
Theorem readAuditLog_unreadable_event workingDirectory team f w content e err :
  let logPath := logPathOf workingDirectory team in
  let w1 := afterBool fsBool (ExistsSync logPath) w in
  fst (fsBool (disk w) (ExistsSync logPath)) = true ->
  fst (fsString (disk w1) (ReadFileSync logPath (js "utf-8"))) = Normal content ->
  given (eventType f) <> None ->
  In e (parsed JSON_parse (entries content)) ->
  getProp e (js "eventType") = Throw err ->
  exists err',
    outcome (readAuditLog workingDirectory team (Some f) w) = Throw err'.
Proof.
  intros logPath w1 Hex Hread Hgiven Hin Hthrow. unfold outcome.
  rewrite readAuditLog_run. cbv zeta. fold logPath w1.
  rewrite Hex, Hread. cbn [fst].
  destruct (given (eventType f)) as [wanted|]; [|contradiction].
  destruct (filterC_throws
              (fun e0 => andThen (getProp e0 (js "eventType"))
                           (fun v => Normal (strictEq v wanted)))
              (parsed JSON_parse (entries content)) e (e:=err) Hin)
    as [err' Herr].
  { now rewrite Hthrow. }
  rewrite Herr. simpl. eauto.
Qed.

(** X27.  A filter whose criteria are all absent or empty strings reads as
    no filter at all. *)
Theorem readAuditLog_empty_criteria workingDirectory team f w :
  given (eventType f) = None ->
  given (workerName f) = None ->
  given (since f) = None ->
  readAuditLog workingDirectory team (Some f) w
  = readAuditLog workingDirectory team None w.
Proof.
  intros H1 H2 H3. rewrite !readAuditLog_run. cbv zeta.
  rewrite H1, H2, H3. reflexivity.
Qed.

(** X28.  An event is appended last and at most once.  The path is
    validated first, and when that throws the logger throws the same error
    and calls nothing more.  The directory is ensured next, and when that
    throws the logger throws and calls nothing more.  The event is
    serialised then, and when that throws the logger throws without an
    append.  Otherwise the serialised event followed by one newline is
    appended to the team's log, once, and the outcome of the append is the
    outcome of the logger. *)
Theorem logAuditEvent_appends_last workingDirectory event w :
  let logPath := logPathOf workingDirectory (teamName event) in
  let dir := pathJoin [workingDirectory; js ".omc"; js "logs"] in
  let c1 := ValidateResolvedPath logPath workingDirectory in
  let c2 := EnsureDirWithMode dir in
  let w1 := afterVoid fsVoid c1 w in
  let w2 := afterVoid fsVoid c2 w1 in
  let run := logAuditEvent workingDirectory event w in
  exists rest,
    calls (world_after run) = calls w ++ c1 :: rest
    /\ match fst (fsVoid (disk w) c1) with
       | Throw e => run = (Throw e, w1) /\ rest = []
       | Normal _ =>
           match fst (fsVoid (disk w1) c2) with
           | Throw e => run = (Throw e, w2) /\ rest = [c2]
           | Normal _ =>
               match JSON_stringify event with
               | Throw e => run = (Throw e, w2) /\ rest = [c2]
               | Normal text =>
                   let c3 := AppendFileWithMode logPath (text ++ [LF]) in
                   run = (fst (fsVoid (disk w2) c3), afterVoid fsVoid c3 w2)
                   /\ rest = [c2; c3]
               end
           end
       end.
Proof.
  intros logPath dir c1 c2 w1 w2 run.
  assert (E : run =
    match fst (fsVoid (disk w) c1) with
    | Throw e => (Throw e, w1)
    | Normal _ =>
        match fst (fsVoid (disk w1) c2) with
        | Throw e => (Throw e, w2)
        | Normal _ =>
            match JSON_stringify event with
            | Throw e => (Throw e, w2)
            | Normal text =>
                voidCall fsVoid (AppendFileWithMode logPath (text ++ [LF])) w2
            end
        end
    end).
  { unfold run, AuditLog.logAuditEvent. cbv zeta. fold logPath dir.
    unfold validateResolvedPath, ensureDirWithMode, appendFileWithMode.
    fold c1 c2. unfold seq at 1. rewrite voidCall_run. fold w1.
    destruct (fst (fsVoid (disk w) c1)) as [[]|e]; [|reflexivity].
    unfold seq at 1. rewrite voidCall_run. fold w2.
    destruct (fst (fsVoid (disk w1) c2)) as [[]|e]; [|reflexivity].
    unfold seq, lift. destruct (JSON_stringify event); reflexivity. }
  rewrite E. clear E. unfold world_after.
  destruct (fst (fsVoid (disk w) c1)) as [[]|e].
  2:{ exists []. repeat split. }
  destruct (fst (fsVoid (disk w1) c2)) as [[]|e].
  2:{ exists [c2]. split; [|split; reflexivity].
      simpl. now rewrite <- app_assoc. }
  destruct (JSON_stringify event) as [text|e].
  2:{ exists [c2]. split; [|split; reflexivity].
      simpl. now rewrite <- app_assoc. }
  cbv zeta. rewrite voidCall_run.
  exists [c2; AppendFileWithMode logPath (text ++ [LF])].
  split; [|split; reflexivity].
  simpl. now rewrite <- !app_assoc.
Qed.

End AuditLogProperties.

(** ** The further properties on the example backends *)

Lemma checkMergeConflicts_idempotent_witness :
  queriesReadOnly FakeGit.git
  /\ outcome (checkMergeConflicts FakeGit.git (js "team/w2") (js "main") repoRoot0
                (world_after (checkMergeConflicts FakeGit.git (js "team/w2")
                                (js "main") repoRoot0 FakeGit.init)))
     = outcome (checkMergeConflicts FakeGit.git (js "team/w2") (js "main")
                  repoRoot0 FakeGit.init).
Proof.
  split; [exact FakeGit_queriesReadOnly|].
  exact (proj1 (@checkMergeConflicts_idempotent _ FakeGit.git
                  (js "team/w2") (js "main") repoRoot0 FakeGit.init
                  FakeGit_queriesReadOnly)).
Defined.

Lemma checkMergeConflicts_call_budget_witness :
  world_after (checkMergeConflicts FakeGit.git (js "gone") (js "main") repoRoot0
                 FakeGit.init)
  = called FakeGit.git (mergeBaseCall (js "main") (js "gone") repoRoot0)
      FakeGit.init.
Proof.
  exact (proj2 (@checkMergeConflicts_call_budget _ FakeGit.git
                  (js "gone") (js "main") repoRoot0 FakeGit.init)
           _ eq_refl).
Defined.

Lemma mergeWorkerBranch_success_trace_witness :
  trace (world_after (mergeWorkerBranch FakeGit.git (js "team/w1") (js "main")
                        repoRoot0 FakeGit.init))
  = [checkoutCall (js "main") repoRoot0;
     mergeCall (js "team/w1") (js "main") repoRoot0;
     headCommitCall repoRoot0].
Proof.
  assert (E : mergeWorkerBranch FakeGit.git (js "team/w1") (js "main") repoRoot0
                FakeGit.init
              = (Normal (mkMergeResult (js "w1") (js "team/w1") true []
                           (Some (js "deadbeef"))),
                 world_after (mergeWorkerBranch FakeGit.git (js "team/w1")
                                (js "main") repoRoot0 FakeGit.init))).
  { vm_compute. reflexivity. }
  exact (proj1 (proj2 (@mergeWorkerBranch_success_trace _ FakeGit.git
                         (js "team/w1") (js "main") repoRoot0 FakeGit.init
                         _ _ E eq_refl))).
Defined.

Lemma mergeWorkerBranch_workerName_segment_witness :
  lastSegment (js "team/w1") <> []
  /\ exists r,
       outcome (mergeWorkerBranch FakeGit.git (js "team/w1") (js "main") repoRoot0
                  FakeGit.init) = Normal r
       /\ ~ In SLASH (workerName r).
Proof.
  assert (H : lastSegment (js "team/w1") <> []) by discriminate.
  split; [exact H|].
  destruct (@mergeWorkerBranch_workerName_segment _ FakeGit.git
              (js "team/w1") (js "main") repoRoot0 FakeGit.init)
    as (r & Hr & _ & Hseg).
  exists r. split; [exact Hr | exact (Hseg H)].
Defined.

Lemma mergeAllWorkerBranches_supplied_base_witness :
  emits (fun c =>
           batchCall (FakeGit.registry (js "alpha") repoRoot0) (js "main")
             repoRoot0 c
           /\ c <> currentBranchCall repoRoot0)
    (mergeAllWorkerBranches FakeGit.git FakeGit.registry (js "alpha") repoRoot0
       (Some (js "main"))).
Proof.
  apply (@mergeAllWorkerBranches_supplied_base _ FakeGit.git FakeGit.registry
           (js "alpha") repoRoot0 (js "main")).
  discriminate.
Defined.

Lemma mergeAllWorkerBranches_results_follow_registry_witness :
  exists rs w',
    mergeAllWorkerBranches FakeGit.git FakeGit.registry (js "alpha") repoRoot0
      (Some (js "main")) FakeGit.init = (Normal rs, w')
    /\ map branch rs
       = map wt_branch (firstn (List.length rs)
                          (FakeGit.registry (js "alpha") repoRoot0)).
Proof.
  assert (Hne : FakeGit.registry (js "alpha") repoRoot0 <> []) by discriminate.
  assert (Hbase : baseResolved FakeGit.git repoRoot0 (Some (js "main"))
                    FakeGit.init (js "main") FakeGit.init).
  { left. exists (js "main"). repeat split. discriminate. }
  destruct (@mergeAllWorkerBranches_results_follow_registry _ FakeGit.git
              FakeGit.registry (js "alpha") repoRoot0 _ _ _ _ Hne Hbase)
    as (rs & w' & Hrun & Hmap & _).
  exists rs, w'. split; [exact Hrun | exact Hmap].
Defined.

Lemma mergeAllWorkerBranches_branches_only_witness :
  mergeAllWorkerBranches FakeGit.git FakeGit.registry (js "alpha") repoRoot0
    None FakeGit.init
  = mergeAllWorkerBranches FakeGit.git renamedRegistry (js "alpha") repoRoot0
      None FakeGit.init.
Proof.
  apply (@mergeAllWorkerBranches_branches_only _ FakeGit.git
           FakeGit.registry renamedRegistry).
  reflexivity.
Defined.

Lemma mergeAllWorkerBranches_throw_is_base_query_witness :
  fst (Scripted.git [Throw "fatal: not a git repository"]
         (currentBranchCall repoRoot0))
  = Throw "fatal: not a git repository".
Proof.
  exact (proj1 (proj2 (proj2
           (@mergeAllWorkerBranches_throw_is_base_query _ Scripted.git
              FakeGit.registry (js "alpha") repoRoot0 None
              (Scripted.start [Throw "fatal: not a git repository"]) _
              eq_refl)))).
Defined.

Ltac absent :=
  let H := fresh in
  intros H; simpl in H;
  repeat (destruct H as [H|H]; [discriminate H|]); exact H.

Lemma isCommandAllowed_extension_witness :
  Permissions.isCommandAllowed FakePermissions.scoped (js "npm test") = true
  /\ Permissions.isCommandAllowed FakePermissions.scoped
       (js "npm test" ++ js "; rm -rf /") = true.
Proof.
  split; [reflexivity|].
  exact (@isCommandAllowed_extension _ FakePermissions.scoped
           (js "npm test") (js "; rm -rf /") eq_refl).
Defined.

Lemma isCommandAllowed_padding_witness :
  Permissions.isCommandAllowed FakePermissions.scoped
    (js "  " ++ js "tsc --noEmit" ++ [LF])
  = Permissions.isCommandAllowed FakePermissions.scoped (js "tsc --noEmit").
Proof.
  exact (@isCommandAllowed_padding _ FakePermissions.scoped
           (js "  ") (js "tsc --noEmit") [LF] eq_refl eq_refl).
Defined.

Lemma isPathAllowed_escape_witness :
  Permissions.isPathAllowed FakePermissions.resolve FakePermissions.relative
    FakePermissions.regExpTest FakePermissions.scoped (js "/etc/passwd")
    (js "/repo")
  = Normal false.
Proof.
  exact (@isPathAllowed_escape _ FakePermissions.resolve FakePermissions.relative
           FakePermissions.regExpTest FakePermissions.scoped
           (js "/etc/passwd") (js "/repo") eq_refl).
Defined.

(** [README.md] is on both lists of the example: it is denied. *)
Lemma isPathAllowed_denied_overrides_witness :
  Permissions.isPathAllowed FakePermissions.resolve FakePermissions.relative
    FakePermissions.regExpTest FakePermissions.scoped (js "README.md")
    (js "/repo")
  = Normal false.
Proof.
  apply (@isPathAllowed_denied_overrides _ FakePermissions.resolve
           FakePermissions.relative FakePermissions.regExpTest
           FakePermissions.scoped (js "README.md") (js "/repo")
           [js "secrets.env"] (js "README.md") []).
  - reflexivity.
  - repeat constructor.
  - reflexivity.
Defined.

Lemma isPathAllowed_decision_witness :
  Permissions.isPathAllowed FakePermissions.resolve FakePermissions.relative
    FakePermissions.regExpTest FakePermissions.scoped (js "src/app.ts")
    (js "/repo")
  = Normal true.
Proof.
  apply (@isPathAllowed_decision _ FakePermissions.resolve
           FakePermissions.relative FakePermissions.regExpTest
           FakePermissions.scoped (js "src/app.ts") (js "/repo")
           (fun p => JS.eqb p (js "src/app.ts"))).
  repeat constructor.
Defined.

Lemma isPathAllowed_deny_monotone_witness :
  Permissions.isPathAllowed FakePermissions.resolve FakePermissions.relative
    FakePermissions.regExpTest
    (Permissions.mkWorkerPermissions (js "w1") [js "src/app.ts"]
       [js "secrets.env"] [] FakePermissions.Infinity)
    (js "src/app.ts") (js "/repo")
  = Normal true.
Proof.
  apply (@isPathAllowed_deny_monotone _ FakePermissions.resolve
           FakePermissions.relative FakePermissions.regExpTest
           (js "w1") [js "src/app.ts"] [js "secrets.env"] [js "README.md"] []
           FakePermissions.Infinity (js "src/app.ts") (js "/repo")).
  reflexivity.
Defined.

Lemma matchGlob_verbatim_witness :
  Permissions.matchGlob FakePermissions.regExpTest (js "a.b") (js "axb")
  = FakePermissions.regExpTest (js "^a.b$") (js "axb").
Proof.
  apply (@matchGlob_verbatim FakePermissions.regExpTest (js "a.b") (js "axb")).
  - absent.
  - absent.
  - reflexivity.
Defined.

Lemma formatPermissionInstructions_shape_witness :
  Permissions.formatPermissionInstructions FakePermissions.positive
    FakePermissions.belowInfinity FakePermissions.roundedKB
    (Permissions.getDefaultPermissions FakePermissions.Infinity (js "w1"))
  = js "PERMISSION CONSTRAINTS:" ++ [LF]
    ++ js "- No restrictions (full access within working directory)".
Proof.
  exact (proj2 (proj2 (@formatPermissionInstructions_shape _
                         FakePermissions.Infinity FakePermissions.positive
                         FakePermissions.belowInfinity FakePermissions.roundedKB
                         FakePermissions.scoped))
           eq_refl (js "w1")).
Defined.

(** The sample log has four entries, the malformed line among them, and a
    blank line: the rotation keeps the last two entries. *)
Lemma rotation_keeps_recent_half_witness :
  AuditLog.entries FakeFs.sample <> []
  /\ AuditLog.kept FakeFs.sample
     = [js "{b:task_started}"; js "{c:task_completed}"]
  /\ last (AuditLog.kept FakeFs.sample) []
     = last (AuditLog.entries FakeFs.sample) [].
Proof.
  assert (H : AuditLog.entries FakeFs.sample <> []) by discriminate.
  split; [exact H|]. split; [reflexivity|].
  exact (proj2 (proj2 (proj2 (rotation_keeps_recent_half FakeFs.sample)) H)).
Defined.

Lemma rotateAuditLog_within_limit_witness :
  AuditLog.rotateAuditLog FakeFs.fsBool FakeFs.fsNumber FakeFs.fsString
    FakeFs.fsVoid FakeFs.numLe FakeFs.DEFAULT_MAX_LOG_SIZE FakeFs.pathJoin
    repoRoot0 (js "alpha") None FakeFs.noLog
  = (Normal tt,
     AuditLog.afterBool FakeFs.fsBool
       (AuditLog.ExistsSync (AuditLog.getLogPath FakeFs.pathJoin repoRoot0
                               (js "alpha")))
       FakeFs.noLog)
  /\ outcome (AuditLog.rotateAuditLog FakeFs.fsBool FakeFs.fsNumber
                FakeFs.fsString FakeFs.fsVoid FakeFs.numLe
                FakeFs.DEFAULT_MAX_LOG_SIZE FakeFs.pathJoin
                repoRoot0 (js "alpha") None (FakeFs.withLog FakeFs.sample))
     = Normal tt.
Proof.
  split.
  - exact (proj1 (@rotateAuditLog_within_limit _ _ FakeFs.fsBool FakeFs.fsNumber
                    FakeFs.fsString FakeFs.fsVoid FakeFs.numLe
                    FakeFs.DEFAULT_MAX_LOG_SIZE FakeFs.pathJoin
                    repoRoot0 (js "alpha") None FakeFs.noLog) eq_refl).
  - rewrite (proj2 (@rotateAuditLog_within_limit _ _ FakeFs.fsBool FakeFs.fsNumber
                      FakeFs.fsString FakeFs.fsVoid FakeFs.numLe
                      FakeFs.DEFAULT_MAX_LOG_SIZE FakeFs.pathJoin
                      repoRoot0 (js "alpha") None (FakeFs.withLog FakeFs.sample))
               eq_refl _ eq_refl eq_refl).
    reflexivity.
Defined.

Lemma rotateAuditLog_replaces_witness :
  let logPath := AuditLog.getLogPath FakeFs.pathJoin repoRoot0 (js "alpha") in
  let run := AuditLog.rotateAuditLog FakeFs.fsBool FakeFs.fsNumber
               FakeFs.fsString FakeFs.fsVoid FakeFs.numLe
               FakeFs.DEFAULT_MAX_LOG_SIZE FakeFs.pathJoin
               repoRoot0 (js "alpha") (Some 10%N) (FakeFs.withLog FakeFs.sample) in
  outcome run = Normal tt
  /\ FakeFs.logFile (AuditLog.disk (world_after run))
     = Some (AuditLog.rotated FakeFs.sample)
  /\ exists pre,
       AuditLog.calls (world_after run)
       = pre ++ [AuditLog.WriteFileSync (logPath ++ js ".tmp")
                   (AuditLog.rotated FakeFs.sample);
                 AuditLog.ChmodSync (logPath ++ js ".tmp") 384;
                 AuditLog.RenameSync (logPath ++ js ".tmp") logPath].
Proof.
  intros logPath run.
  destruct (@rotateAuditLog_replaces _ _ FakeFs.fsBool FakeFs.fsNumber
              FakeFs.fsString FakeFs.fsVoid FakeFs.numLe
              FakeFs.DEFAULT_MAX_LOG_SIZE FakeFs.pathJoin
              repoRoot0 (js "alpha") (Some 10%N) (FakeFs.withLog FakeFs.sample)
              _ _ eq_refl eq_refl eq_refl eq_refl)
    as (rest & Hcalls & Hcase).
  hnf in Hcase. destruct Hcase as [Hrun Hrest].
  fold logPath in Hcalls, Hrun, Hrest. fold run in Hcalls, Hrun.
  split; [now rewrite Hrun|]. split; [now rewrite Hrun|].
  eexists. rewrite Hcalls, Hrest. reflexivity.
Defined.

Lemma readAuditLog_unfiltered_witness :
  outcome (AuditLog.readAuditLog FakeFs.fsBool FakeFs.fsString FakeFs.pathJoin
             FakeFs.JSON_parse FakeFs.getProp FakeFs.strictEq FakeFs.greaterEq
             repoRoot0 (js "alpha") None (FakeFs.withLog FakeFs.sample))
  = Normal [js "{a:task_claimed}"; js "{b:task_started}";
            js "{c:task_completed}"].
Proof.
  rewrite (proj2 (@readAuditLog_unfiltered _ FakeFs.fsBool FakeFs.fsString
                    FakeFs.pathJoin _ FakeFs.JSON_parse FakeFs.getProp
                    FakeFs.strictEq FakeFs.greaterEq
                    repoRoot0 (js "alpha") (FakeFs.withLog FakeFs.sample))
             eq_refl _ eq_refl).
  reflexivity.
Defined.

Lemma readAuditLog_filtered_witness :
  outcome (AuditLog.readAuditLog FakeFs.fsBool FakeFs.fsString FakeFs.pathJoin
             FakeFs.JSON_parse FakeFs.getProp FakeFs.strictEq FakeFs.greaterEq
             repoRoot0 (js "alpha") (Some FakeFs.startedOnly)
             (FakeFs.withLog FakeFs.sample))
  = Normal [js "{b:task_started}"].
Proof.
  rewrite (@readAuditLog_filtered _ FakeFs.fsBool FakeFs.fsString
             FakeFs.pathJoin _ FakeFs.JSON_parse FakeFs.getProp
             FakeFs.strictEq FakeFs.greaterEq
             repoRoot0 (js "alpha") FakeFs.startedOnly (FakeFs.withLog FakeFs.sample)
             _ eq_refl eq_refl).
  - reflexivity.
  - intros e property He. simpl in He.
    repeat (destruct He as [<-|He]; [eexists; reflexivity|]). contradiction.
  - intros e v s _ _ _. eexists. reflexivity.
Defined.

Lemma readAuditLog_unreadable_event_witness :
  exists err,
    outcome (AuditLog.readAuditLog FakeFs.fsBool FakeFs.fsString FakeFs.pathJoin
               FakeFs.JSON_parse FakeFs.getProp FakeFs.strictEq FakeFs.greaterEq
               repoRoot0 (js "alpha") (Some FakeFs.startedOnly)
               (FakeFs.withLog (FakeFs.sample ++ FakeFs.line "null")))
    = Throw err.
Proof.
  apply (@readAuditLog_unreadable_event _ FakeFs.fsBool FakeFs.fsString
           FakeFs.pathJoin _ FakeFs.JSON_parse FakeFs.getProp
           FakeFs.strictEq FakeFs.greaterEq
           repoRoot0 (js "alpha") FakeFs.startedOnly
           (FakeFs.withLog (FakeFs.sample ++ FakeFs.line "null"))
           (FakeFs.sample ++ FakeFs.line "null") (js "null")
           "TypeError: Cannot read properties of null"%string).
  - reflexivity.
  - reflexivity.
  - discriminate.
  - vm_compute. auto.
  - reflexivity.
Defined.

Lemma readAuditLog_empty_criteria_witness :
  AuditLog.readAuditLog FakeFs.fsBool FakeFs.fsString FakeFs.pathJoin
    FakeFs.JSON_parse FakeFs.getProp FakeFs.strictEq FakeFs.greaterEq
    repoRoot0 (js "alpha")
    (Some (AuditLog.mkAuditFilter (Some []) None (Some [])))
    (FakeFs.withLog FakeFs.sample)
  = AuditLog.readAuditLog FakeFs.fsBool FakeFs.fsString FakeFs.pathJoin
      FakeFs.JSON_parse FakeFs.getProp FakeFs.strictEq FakeFs.greaterEq
      repoRoot0 (js "alpha") None (FakeFs.withLog FakeFs.sample).
Proof.
  exact (@readAuditLog_empty_criteria _ FakeFs.fsBool FakeFs.fsString
           FakeFs.pathJoin _ FakeFs.JSON_parse FakeFs.getProp
           FakeFs.strictEq FakeFs.greaterEq
           repoRoot0 (js "alpha")
           (AuditLog.mkAuditFilter (Some []) None (Some []))
           (FakeFs.withLog FakeFs.sample) eq_refl eq_refl eq_refl).
Defined.

(** An event of team [alpha] is validated, its directory ensured and its
    line appended; an event of a team named [../x] does not validate, and
    nothing else is called. *)
Lemma logAuditEvent_appends_last_witness :
  let log := AuditLog.logAuditEvent FakeFs.fsVoid FakeFs.pathJoin
               FakeFs.teamName FakeFs.JSON_stringify repoRoot0 in
  let logPath := AuditLog.getLogPath FakeFs.pathJoin repoRoot0 in
  let dir := FakeFs.pathJoin [repoRoot0; js ".omc"; js "logs"] in
  (outcome (log (js "alpha", js "{}") FakeFs.noLog) = Normal tt
   /\ AuditLog.calls (world_after (log (js "alpha", js "{}") FakeFs.noLog))
      = [AuditLog.ValidateResolvedPath (logPath (js "alpha")) repoRoot0;
         AuditLog.EnsureDirWithMode dir;
         AuditLog.AppendFileWithMode (logPath (js "alpha")) (js "{}" ++ [LF])])
  /\ (outcome (log (js "../x", js "{}") FakeFs.noLog)
      = Throw "Path traversal detected"
      /\ AuditLog.calls (world_after (log (js "../x", js "{}") FakeFs.noLog))
         = [AuditLog.ValidateResolvedPath (logPath (js "../x")) repoRoot0]).
Proof.
  intros log logPath dir. split.
  - destruct (@logAuditEvent_appends_last _ FakeFs.fsVoid FakeFs.pathJoin _
                FakeFs.teamName FakeFs.JSON_stringify repoRoot0
                (js "alpha", js "{}") FakeFs.noLog)
      as (rest & Hcalls & Hcase).
    hnf in Hcase. destruct Hcase as [Hrun Hrest].
    fold log in Hcalls, Hrun. split.
    + now rewrite Hrun.
    + rewrite Hcalls, Hrest. reflexivity.
  - destruct (@logAuditEvent_appends_last _ FakeFs.fsVoid FakeFs.pathJoin _
                FakeFs.teamName FakeFs.JSON_stringify repoRoot0
                (js "../x", js "{}") FakeFs.noLog)
      as (rest & Hcalls & Hcase).
    hnf in Hcase. destruct Hcase as [Hrun Hrest].
    fold log in Hcalls, Hrun. split.
    + now rewrite Hrun.
    + rewrite Hcalls, Hrest. reflexivity.
Defined.
